(** * AutoGLM-with-ASR: response splitter and realtime transcription session

    A shallow embedding of [phone_agent/model/client.py] (the streaming
    response splitter, [ModelClient.request] and [_parse_response]) and of
    [phone_agent/asr.py] ([RealtimeASRClient.transcribe_once] with its
    callbacks), with the properties of the specification stated over them. *)

From Stdlib Require Import List Bool Arith NArith ZArith Lia.
From Stdlib Require String Ascii.
Import ListNotations String.StringSyntax.
Delimit Scope string_scope with string.

(* ------------------------------------------------------------------ *)
(** ** Python strings

    A Python [str] is a sequence of Unicode code points.  We keep the code
    points as numbers, so that [str.strip] can use Python's own table of
    white space. *)

Module PyStr.

Definition char := N.
Definition str := list char.

(** [py "lit"] is the Python literal ["lit"] (ASCII literals only). *)
Definition py (s : String.string) : str :=
  map Ascii.N_of_ascii (String.list_ascii_of_string s).
Arguments py s%_string.

Definition char_eqb (a b : char) : bool := N.eqb a b.

(** [bool(s)] for a string: non-empty. *)
Definition truthy (s : str) : bool :=
  match s with [] => false | _ :: _ => true end.

(** [full.startswith(pre)] *)
Fixpoint startswith (full pre : str) {struct pre} : bool :=
  match pre, full with
  | [], _ => true
  | _ :: _, [] => false
  | p :: pre', c :: full' => char_eqb p c && startswith full' pre'
  end.

(** [s.find(sub)]: the lowest index at which [sub] occurs in [s]. *)
Fixpoint find (sub s : str) : option nat :=
  if startswith s sub then Some 0
  else match s with
       | [] => None
       | _ :: s' => option_map S (find sub s')
       end.

(** [sub in s] *)
Definition contains (sub s : str) : bool :=
  match find sub s with Some _ => true | None => false end.

(** [s.split(sep, 1)] when [sep in s]: the parts [p[0]] and [p[1]] around
    the first occurrence of [sep]; [None] when [sep] does not occur (the
    source only splits after testing [sep in s]). *)
Definition split1 (sep s : str) : option (str * str) :=
  match find sep s with
  | Some i => Some (firstn i s, skipn (i + length sep) s)
  | None => None
  end.

(** [s.replace(old, "")]: the occurrences of [old] are removed left to
    right, without overlap; an empty [old] removes nothing.  In
    [remove_from], for a non-empty [old], [skip] counts the characters of a
    match that are still to be dropped. *)
Fixpoint remove_from (old s : str) (skip : nat) : str :=
  match s with
  | [] => []
  | c :: s' =>
      match skip with
      | S k => remove_from old s' k
      | O => if startswith s old
             then remove_from old s' (length old - 1)
             else c :: remove_from old s' 0
      end
  end.

Definition remove (old s : str) : str :=
  match old with
  | [] => s
  | _ :: _ => remove_from old s 0
  end.

(** [c.isspace()], as CPython's [_PyUnicode_IsWhitespace]. *)
Definition isspace (c : char) : bool :=
  ((9 <=? c) && (c <=? 13) || (28 <=? c) && (c <=? 32)
   || (c =? 133) || (c =? 160) || (c =? 5760)
   || (8192 <=? c) && (c <=? 8202)
   || (c =? 8232) || (c =? 8233) || (c =? 8239) || (c =? 8287)
   || (c =? 12288))%N.

Fixpoint lstrip (s : str) : str :=
  match s with
  | c :: s' => if isspace c then lstrip s' else s
  | [] => []
  end.

Definition rstrip (s : str) : str := rev (lstrip (rev s)).

(** [s.strip()] *)
Definition strip (s : str) : str := rstrip (lstrip s).

(** [s[-n:]] for a slice written with a negative start: the last [n]
    characters, or all of [s] when it is shorter; [s[-0:]] is [s]. *)
Definition last_chars (n : nat) (s : str) : str :=
  match n with
  | O => s
  | _ => skipn (length s - n) s
  end.

(** [s.lower()] on the letters A-Z.  Code points outside ASCII are left as
    they are: the only ASCII letters that one of them lowers to are [i] and
    [k], so the test ["stopped" in s.lower()] is not affected. *)
Definition lower_char (c : char) : char :=
  if ((65 <=? c) && (c <=? 90))%N then (c + 32)%N else c.

Definition lower (s : str) : str := map lower_char s.

(** [sep.join(parts)] *)
Fixpoint join (sep : str) (parts : list str) : str :=
  match parts with
  | [] => []
  | [p] => p
  | p :: rest => p ++ sep ++ join sep rest
  end.

(** [sub] occurs in [s]. *)
Definition occurs (sub s : str) : Prop := exists a b, s = a ++ sub ++ b.

(** Exceptions, by the classes the [except] clauses of the sources tell
    apart: [KeyboardInterrupt], another [BaseException] that is not an
    [Exception], and an [Exception] with its class name and [str(e)]. *)
Inductive exn :=
| KeyboardInterrupt
| OtherBaseException (cls : str)
| Exception (cls msg : str).

Inductive result (A : Type) :=
| Return (a : A)
| Raise (e : exn).
Arguments Return {A} a.
Arguments Raise {A} e.

End PyStr.

Import PyStr.

(* ------------------------------------------------------------------ *)
(** ** [phone_agent/model/client.py] *)

Module Client.

(** [ModelResponse].  Times are readings of [time.time()] as integer ticks
    of the clock. *)
Record ModelResponse := {
  thinking : str;
  action : str;
  raw_content : str;
  time_to_first_token : option Z;
  time_to_thinking_end : option Z;
  total_time : option Z
}.

(** A streamed chunk: [chunk.choices], each choice holding a [delta] with the
    attributes the loop reads through [getattr(delta, name, None)]. *)
Record delta := {
  reasoning_content : option str;
  reasoning : option str;
  content : option str
}.

Record chunk := { choices : list delta }.

(** What [request] writes to standard output. *)
Inductive output :=
| Reasoning (s : str)            (* line 86: print(str(r_piece), end="") *)
| Thinking (s : str)             (* lines 105, 118, 122: print(.., end="") *)
| Newline                        (* line 106: print() *)
| Metrics (ttft total : Z).      (* line 132 *)

(** The local variables of [request] that the loop over the stream
    updates, the number of [time.time()] calls made so far, and the output
    written so far. *)
Record locals := {
  l_raw_content : str;
  l_raw_reasoning : str;
  l_buffer : str;
  l_in_action_phase : bool;
  l_first_token_received : bool;
  l_time_to_first_token : option Z;
  l_time_to_thinking_end : option Z;
  l_ticks : nat;
  l_stdout : list output
}.

(** [ModelClient._parse_response] *)
Definition parse_response (content : str) : str * str :=
  if contains (py "finish(message=") content then
    match split1 (py "finish(message=") content with
    | Some (p0, p1) => (strip p0, py "finish(message=" ++ p1)
    | None => ([], content)
    end
  else if contains (py "do(action=") content then
    match split1 (py "do(action=") content with
    | Some (p0, p1) => (strip p0, py "do(action=" ++ p1)
    | None => ([], content)
    end
  else if contains (py "<answer>") content then
    match split1 (py "<answer>") content with
    | Some (p0, p1) =>
        (strip (remove (py "</think>") (remove (py "<think>") p0)),
         strip (remove (py "</answer>") p1))
    | None => ([], content)
    end
  else ([], content).

(** What [f"{None:.3f}"] raises. *)
Definition format_none : exn :=
  Exception (py "TypeError")
            (py "unsupported format string passed to NoneType.__format__").

Definition action_markers : list str := [py "finish(message="; py "do(action="].

(** [a or b] on optional strings. *)
Definition py_or (a b : option str) : option str :=
  match a with
  | Some s => if truthy s then a else b
  | None => b
  end.

(** Line 80. *)
Definition r_piece (d : delta) : option str :=
  py_or (reasoning_content d) (reasoning d).

Section Request.

(** [clock n] is what the [n]-th call of [time.time()] returns. *)
Variable clock : nat -> Z.

Definition start_time : Z := clock 0.

Definition init_locals : locals :=
  {| l_raw_content := []; l_raw_reasoning := []; l_buffer := [];
     l_in_action_phase := false; l_first_token_received := false;
     l_time_to_first_token := None; l_time_to_thinking_end := None;
     l_ticks := 1; l_stdout := [] |}.

(** Lines 82-84 and 91-93. *)
Definition note_first_token (l : locals) : locals :=
  if l_first_token_received l then l
  else
    {| l_raw_content := l_raw_content l; l_raw_reasoning := l_raw_reasoning l;
       l_buffer := l_buffer l; l_in_action_phase := l_in_action_phase l;
       l_first_token_received := true;
       l_time_to_first_token := Some (clock (l_ticks l) - start_time)%Z;
       l_time_to_thinking_end := l_time_to_thinking_end l;
       l_ticks := S (l_ticks l); l_stdout := l_stdout l |}.

(** Lines 81-86. *)
Definition on_reasoning (d : delta) (l : locals) : locals :=
  match r_piece d with
  | Some r =>
      if truthy r then
        let l := note_first_token l in
        {| l_raw_content := l_raw_content l;
           l_raw_reasoning := l_raw_reasoning l ++ r;
           l_buffer := l_buffer l; l_in_action_phase := l_in_action_phase l;
           l_first_token_received := l_first_token_received l;
           l_time_to_first_token := l_time_to_first_token l;
           l_time_to_thinking_end := l_time_to_thinking_end l;
           l_ticks := l_ticks l; l_stdout := l_stdout l ++ [Reasoning r] |}
      else l
  | None => l
  end.

(** Lines 101-102: the first marker, in the order of [action_markers], that
    occurs in the buffer. *)
Fixpoint first_marker_in (markers : list str) (buffer : str) : option str :=
  match markers with
  | [] => None
  | marker :: rest =>
      if contains marker buffer then Some marker
      else first_marker_in rest buffer
  end.

(** Line 116. *)
Definition is_p (buffer : str) : bool :=
  existsb (fun marker => startswith marker (last_chars (length marker) buffer))
          action_markers.

(** Lines 99-119, for a buffer that has just received [c_piece]. *)
Definition scan_buffer (l : locals) (buffer : str) : locals :=
  match first_marker_in action_markers buffer with
  | Some marker =>
      let thinking_part :=
        match split1 marker buffer with
        | Some (p0, _) => p0
        | None => buffer
        end in
      {| l_raw_content := l_raw_content l; l_raw_reasoning := l_raw_reasoning l;
         l_buffer := buffer; l_in_action_phase := true;
         l_first_token_received := l_first_token_received l;
         l_time_to_first_token := l_time_to_first_token l;
         l_time_to_thinking_end := Some (clock (l_ticks l) - start_time)%Z;
         l_ticks := S (l_ticks l);
         l_stdout :=
           l_stdout l
           ++ (if truthy (strip thinking_part) then [Thinking thinking_part]
               else [])
           ++ [Newline] |}
  | None =>
      if is_p buffer then
        {| l_raw_content := l_raw_content l;
           l_raw_reasoning := l_raw_reasoning l;
           l_buffer := buffer; l_in_action_phase := l_in_action_phase l;
           l_first_token_received := l_first_token_received l;
           l_time_to_first_token := l_time_to_first_token l;
           l_time_to_thinking_end := l_time_to_thinking_end l;
           l_ticks := l_ticks l; l_stdout := l_stdout l |}
      else
        {| l_raw_content := l_raw_content l;
           l_raw_reasoning := l_raw_reasoning l;
           l_buffer := []; l_in_action_phase := l_in_action_phase l;
           l_first_token_received := l_first_token_received l;
           l_time_to_first_token := l_time_to_first_token l;
           l_time_to_thinking_end := l_time_to_thinking_end l;
           l_ticks := l_ticks l; l_stdout := l_stdout l ++ [Thinking buffer] |}
  end.

(** Lines 89-119. *)
Definition on_content (d : delta) (l : locals) : locals :=
  match content d with
  | None => l
  | Some c_piece =>
      let l := note_first_token l in
      let l :=
        {| l_raw_content := l_raw_content l ++ c_piece;
           l_raw_reasoning := l_raw_reasoning l;
           l_buffer := l_buffer l; l_in_action_phase := l_in_action_phase l;
           l_first_token_received := l_first_token_received l;
           l_time_to_first_token := l_time_to_first_token l;
           l_time_to_thinking_end := l_time_to_thinking_end l;
           l_ticks := l_ticks l; l_stdout := l_stdout l |} in
      if l_in_action_phase l then l
      else scan_buffer l (l_buffer l ++ c_piece)
  end.

(** One turn of [for chunk in stream] (lines 73-119). *)
Definition on_chunk (l : locals) (ch : chunk) : locals :=
  match choices ch with
  | [] => l
  | d :: _ => on_content d (on_reasoning d l)
  end.

Definition run_stream (stream : list chunk) (l : locals) : locals :=
  fold_left on_chunk stream l.

(** Lines 121-141.  Formatting [None] with [:.3f] on line 132 raises a
    [TypeError]. *)
Definition finish (l : locals) : result ModelResponse * list output :=
  let out :=
    l_stdout l
    ++ (if truthy (l_buffer l) && negb (l_in_action_phase l)
        then [Thinking (l_buffer l)] else []) in
  let total := (clock (l_ticks l) - start_time)%Z in
  let '(t, a) := parse_response (l_raw_content l) in
  let t := if truthy (strip (l_raw_reasoning l))
           then strip (l_raw_reasoning l) else t in
  match l_time_to_first_token l with
  | None => (Raise format_none, out)
  | Some ttft =>
      (Return {| thinking := t; action := a;
                 raw_content := l_raw_content l;
                 time_to_first_token := Some ttft;
                 time_to_thinking_end := l_time_to_thinking_end l;
                 total_time := Some total |},
       out ++ [Metrics ttft total])
  end.

(** [ModelClient.request], on the stream that
    [client.chat.completions.create] returned. *)
Definition request (stream : list chunk) : result ModelResponse * list output :=
  finish (run_stream stream init_locals).

End Request.

(** A chunk that carries one content fragment, and one that carries one
    reasoning fragment. *)
Definition content_chunk (c : str) : chunk :=
  {| choices := [{| reasoning_content := None; reasoning := None;
                    content := Some c |}] |}.

Definition reasoning_chunk (r : str) : chunk :=
  {| choices := [{| reasoning_content := Some r; reasoning := None;
                    content := None |}] |}.

(** A clock that advances by one at each reading. *)
Definition ticking (n : nat) : Z := Z.of_nat n.

(** The fragments of the weather scenario, and the text they make up. *)
Definition weather_fragments : list str :=
  [py "I will "; py "check the weather." ++ [10%N] ++ py "do(action=";
   py "open_app('Weather'))"].

Definition weather_text : str :=
  py "I will check the weather." ++ [10%N]
  ++ py "do(action=open_app('Weather'))".

(** The content fragment and the reasoning fragment a chunk delivers. *)
Definition content_piece (ch : chunk) : option str :=
  match choices ch with
  | d :: _ => content d
  | [] => None
  end.

Definition reasoning_piece (ch : chunk) : option str :=
  match choices ch with
  | d :: _ => r_piece d
  | [] => None
  end.

Definition fragments (piece : chunk -> option str) (stream : list chunk)
  : list str :=
  flat_map (fun ch => match piece ch with Some s => [s] | None => [] end)
           stream.

(** The two sub-streams of a response. *)
Definition content_fragments : list chunk -> list str :=
  fragments content_piece.
Definition reasoning_fragments : list chunk -> list str :=
  fragments reasoning_piece.

(** A chunk delivers a token when it has a non-empty reasoning fragment or
    a content fragment (which may be the empty string). *)
Definition has_token (ch : chunk) : bool :=
  match reasoning_piece ch with Some r => truthy r | None => false end
  || match content_piece ch with Some _ => true | None => false end.

Definition piece_text (p : option str) : str :=
  match p with Some s => s | None => [] end.

Definition piece_truthy (p : option str) : bool :=
  match p with Some s => truthy s | None => false end.

Definition piece_given (p : option str) : bool :=
  match p with Some _ => true | None => false end.

(** The loop invariant on the first-token mark: once a token has been
    received, [time_to_first_token] is set. *)
Definition marked (l : locals) : Prop :=
  l_first_token_received l = true -> l_time_to_first_token l <> None.

(** [advances l l' c r tok]: from [l] to [l'] the loop has appended [c] to
    [raw_content] and [r] to [raw_reasoning], and has seen a token iff
    [tok]. *)
Definition advances (l l' : locals) (c r : str) (tok : bool) : Prop :=
  l_raw_content l' = l_raw_content l ++ c /\
  l_raw_reasoning l' = l_raw_reasoning l ++ r /\
  l_first_token_received l' = l_first_token_received l || tok /\
  (marked l -> marked l').

(** The split at offset [k]: the text before it, stripped, and the text
    from it on. *)
Definition split_at (k : nat) (content : str) : str * str :=
  (strip (firstn k content), skipn k content).

(** The lowest offset at which one of [markers] starts in [content]. *)
Fixpoint lowest_offset (markers : list str) (content : str) : option nat :=
  match markers with
  | [] => None
  | marker :: rest =>
      match find marker content, lowest_offset rest content with
      | Some i, Some j => Some (Nat.min i j)
      | Some i, None => Some i
      | None, o => o
      end
  end.

(** The text echoed as thinking while the content fragments arrive. *)
Definition thinking_echo (out : list output) : str :=
  flat_map (fun o => match o with Thinking s => s | _ => [] end) out.

End Client.


(* ------------------------------------------------------------------ *)
(** ** [phone_agent/asr.py] *)

Module ASR.

(** [RealtimeASRConfig] *)
Record RealtimeASRConfig := {
  model : str;
  format : str;
  sample_rate : Z;
  channels : Z;
  block_size : Z;
  semantic_punctuation_enabled : bool;
  api_key : option str;
  websocket_url : option str
}.

(** Audio objects ([pyaudio.PyAudio()] and the stream it opens) are named
    by the order in which they are created. *)
Definition handle := nat.

(** The [state] dictionary of [transcribe_once]. *)
Record state := {
  mic : option handle;
  stream : option handle;
  sentences : list str;
  last_text : str;
  request_id : str;
  error : option str;
  stopping : bool;
  stopped : bool
}.

(** The handler of [SIGINT]: the one the host process had installed, or the
    [signal_handler] of the session.  ([signal.getsignal] returning [None],
    for a handler that was not installed from Python, is left out.) *)
Inductive handler :=
| HostHandler (id : nat)
| SessionHandler.

(** What the service passes to [on_event] and [on_error]. *)
Record sentence := {
  text : option str;            (* [sentence["text"]], when the key is there *)
  is_sentence_end : bool        (* [RecognitionResult.is_sentence_end] *)
}.

Record RecognitionResult := {
  get_sentence : option sentence;   (* [None] when it is not a [dict] *)
  get_request_id : str
}.

Record error_message := {
  err_request_id : option str;      (* the attribute, when it is there *)
  err_message : option str
}.

(** What happens around the session while it runs: the service calls back
    from its own thread, or the user presses Ctrl+C. *)
Inductive event :=
| OnOpen (opens : bool)      (* [opens = false]: [mic.open] raises *)
| OnClose
| OnComplete
| OnError (message : error_message)
| OnEvent (result : RecognitionResult)
| Sigint.

(** Calls into the audio device, the service and the console. *)
Inductive effect :=
| PrintLine (line : str)
| PrintText (text : str)
| PrintError (request_id msg_text : str)
| PrintSentenceEnd (request_id : str)
| PrintMetric
| SetApiKey (key : str)
| SetWebsocketUrl (url : str)
| NewPyAudio (mic : handle)
| MicOpen (mic stream : handle)
| StopStream (stream : handle)
| CloseStream (stream : handle)
| Terminate (mic : handle)
| SignalSignal (h : handler)
| HostInterrupt (id : nat)
| RecognitionStart
| RecognitionStop
| Sleep
| StreamRead (stream : handle) (frames : Z)
| SendAudioFrame.

Record world := {
  st : state;
  sigint : handler;
  next_handle : handle;
  trace : list effect
}.

(** A call that blocks the main thread: the events delivered while it
    runs, and the exception it ends with, if any. *)
Record call := {
  during : list event;
  raised : option exn
}.

(** One turn of the drive loop, as the surroundings decide it: what happens
    while the main thread sleeps or reads a block, and while it sends the
    block. *)
Record iteration := {
  blocking : call;
  sending : call
}.

(** All that [transcribe_once] depends on. *)
Record environment := {
  config : RealtimeASRConfig;
  dependencies : bool;             (* the imports of lines 31-37 succeed *)
  previous_handler : nat;          (* [signal.getsignal(signal.SIGINT)] *)
  start : call;                    (* [recognition.start()] *)
  script : list iteration;
  stop : call                      (* [recognition.stop()] *)
}.

Definition log (e : effect) (w : world) : world :=
  {| st := st w; sigint := sigint w; next_handle := next_handle w;
     trace := trace w ++ [e] |}.

Definition with_state (s : state) (w : world) : world :=
  {| st := s; sigint := sigint w; next_handle := next_handle w;
     trace := trace w |}.

Definition set_devices (m s : option handle) (x : state) : state :=
  {| mic := m; stream := s; sentences := sentences x;
     last_text := last_text x; request_id := request_id x;
     error := error x; stopping := stopping x; stopped := stopped x |}.

Definition set_sentences (l : list str) (x : state) : state :=
  {| mic := mic x; stream := stream x; sentences := l;
     last_text := last_text x; request_id := request_id x;
     error := error x; stopping := stopping x; stopped := stopped x |}.

Definition set_last_text (t : str) (x : state) : state :=
  {| mic := mic x; stream := stream x; sentences := sentences x;
     last_text := t; request_id := request_id x;
     error := error x; stopping := stopping x; stopped := stopped x |}.

Definition set_request_id (r : str) (x : state) : state :=
  {| mic := mic x; stream := stream x; sentences := sentences x;
     last_text := last_text x; request_id := r;
     error := error x; stopping := stopping x; stopped := stopped x |}.

Definition set_error (e : option str) (x : state) : state :=
  {| mic := mic x; stream := stream x; sentences := sentences x;
     last_text := last_text x; request_id := request_id x;
     error := e; stopping := stopping x; stopped := stopped x |}.

Definition set_stopping (b : bool) (x : state) : state :=
  {| mic := mic x; stream := stream x; sentences := sentences x;
     last_text := last_text x; request_id := request_id x;
     error := error x; stopping := b; stopped := stopped x |}.

Definition set_stopped (b : bool) (x : state) : state :=
  {| mic := mic x; stream := stream x; sentences := sentences x;
     last_text := last_text x; request_id := request_id x;
     error := error x; stopping := stopping x; stopped := b |}.

(** Lines 48-57. *)
Definition initial_state : state :=
  {| mic := None; stream := None; sentences := []; last_text := [];
     request_id := []; error := None; stopping := false; stopped := false |}.

(** [Callback.on_open], lines 60-70. *)
Definition on_open (opens : bool) (w : world) : world :=
  let w := log (PrintLine (py "RecognitionCallback open.")) w in
  let m := next_handle w in
  let w := {| st := st w; sigint := sigint w; next_handle := S m;
              trace := trace w ++ [NewPyAudio m] |} in
  if opens then
    let s := next_handle w in
    let w := {| st := st w; sigint := sigint w; next_handle := S s;
                trace := trace w ++ [MicOpen m s] |} in
    with_state (set_devices (Some m) (Some s) (st w)) w
  else w.

(** [Callback.on_close], lines 72-91.  The three calls are wrapped in
    [try: ... except Exception: pass]. *)
Definition on_close (w : world) : world :=
  let w := log (PrintLine (py "RecognitionCallback close.")) w in
  let stream := stream (st w) in
  let mic := mic (st w) in
  let w := match stream with
           | Some s => log (CloseStream s) (log (StopStream s) w)
           | None => w
           end in
  let w := match mic with
           | Some m => log (Terminate m) w
           | None => w
           end in
  with_state (set_devices None None (st w)) w.

(** [Callback.on_complete], lines 93-94. *)
Definition on_complete (w : world) : world :=
  log (PrintLine (py "RecognitionCallback completed.")) w.

(** [Callback.on_error], lines 96-101. *)
Definition on_error (message : error_message) (w : world) : world :=
  let request_id := match err_request_id message with
                    | Some r => r | None => [] end in
  let msg_text := match err_message message with
                  | Some m => m | None => py "Unknown ASR error" end in
  let w := log (PrintError request_id msg_text) w in
  with_state (set_error (Some (request_id ++ py ": " ++ msg_text)) (st w)) w.

(** [Callback.on_event], lines 103-120. *)
Definition on_event (result : RecognitionResult) (w : world) : world :=
  match get_sentence result with
  | Some {| text := Some t; is_sentence_end := ends |} =>
      let text := strip t in
      let w := if truthy text
               then with_state (set_last_text text (st w))
                               (log (PrintText text) w)
               else w in
      let w := with_state (set_request_id (get_request_id result) (st w)) w in
      if ends then
        let w := if truthy text
                 then with_state
                        (set_sentences (sentences (st w) ++ [text]) (st w)) w
                 else w in
        log (PrintSentenceEnd (get_request_id result)) w
      else w
  | _ => w
  end.

(** [signal_handler], lines 149-152, when it is the installed handler. *)
Definition signal_handler (w : world) : world :=
  let w := log (PrintLine (py "Ctrl+C pressed, stop recognition ...")) w in
  with_state (set_stopping true (st w)) w.

Definition deliver (w : world) (e : event) : world :=
  match e with
  | OnOpen opens => on_open opens w
  | OnClose => on_close w
  | OnComplete => on_complete w
  | OnError message => on_error message w
  | OnEvent result => on_event result w
  | Sigint =>
      match sigint w with
      | SessionHandler => signal_handler w
      | HostHandler id => log (HostInterrupt id) w
      end
  end.

Definition deliver_all (es : list event) (w : world) : world :=
  fold_left deliver es w.

(** [_stop_recognition], lines 133-145. *)
Definition stop_recognition (c : call) (w : world) : world * option exn :=
  if stopped (st w) then (w, None)
  else
    let w := with_state (set_stopped true (st w)) w in
    let w := deliver_all (during c) (log RecognitionStop w) in
    match raised c with
    | Some e => (w, Some e)
    | None =>
        (log PrintMetric (log (PrintLine (py "Recognition stopped.")) w), None)
    end.

(** [bool(state["error"])] *)
Definition error_set (x : state) : bool :=
  match error x with Some e => truthy e | None => false end.

(** [state["error"] is not None] *)
Definition error_recorded (x : state) : bool :=
  match error x with Some _ => true | None => false end.

(** An error that is recorded is a non-empty string. *)
Definition error_ok (x : state) : Prop :=
  error_recorded x = true -> error_set x = true.

(** How one turn of the loop body (lines 160-173) ends. *)
Inductive turn :=
| Continue                (* line 163, or the end of the body *)
| Break                   (* lines 170 and 173 *)
| Raised (e : exn).       (* line 164, or line 171 *)

(** Lines 167-170: what is caught is an [Exception], a stop is pending and
    the message mentions "stopped". *)
Definition benign_race (x : state) (e : exn) : bool :=
  match e with
  | Exception _ msg => stopping x && contains (py "stopped") (lower msg)
  | _ => false
  end.

Definition loop_body (cfg : RealtimeASRConfig) (it : iteration) (w : world)
  : world * turn :=
  match stream (st w) with
  | None =>
      (deliver_all (during (blocking it)) (log Sleep w), Continue)
  | Some s =>
      let w := deliver_all (during (blocking it))
                           (log (StreamRead s (block_size cfg)) w) in
      match raised (blocking it) with
      | Some e => (w, Raised e)
      | None =>
          let w := deliver_all (during (sending it)) (log SendAudioFrame w) in
          match raised (sending it) with
          | Some e =>
              if benign_race (st w) e then (w, Break) else (w, Raised e)
          | None =>
              if error_set (st w) then (w, Break) else (w, Continue)
          end
      end
  end.

(** How the [while] loop of lines 159-173 ends. *)
Inductive loop_exit :=
| Done                    (* [state["stopping"]] became true *)
| Broke
| Failed (e : exn).

(** The loop, for as long as the script tells what the surroundings do;
    [None] when the script ends with the loop still turning. *)
Fixpoint drive (cfg : RealtimeASRConfig) (script : list iteration) (w : world)
  : option (world * loop_exit) :=
  if stopping (st w) then Some (w, Done)
  else
    match script with
    | [] => None
    | it :: rest =>
        match loop_body cfg it w with
        | (w', Continue) => drive cfg rest w'
        | (w', Break) => Some (w', Broke)
        | (w', Raised e) => Some (w', Failed e)
        end
    end.

(** Lines 183-186. *)
Definition transcript (x : state) : str :=
  let text := strip (join (py " ") (sentences x)) in
  if truthy text then text else strip (last_text x).

Definition runtime_error (msg : str) : exn := Exception (py "RuntimeError") msg.

(** Lines 174-175: [except KeyboardInterrupt]. *)
Definition after_except (ex : loop_exit) (w : world) : world :=
  match ex with
  | Failed KeyboardInterrupt => with_state (set_stopping true (st w)) w
  | _ => w
  end.

(** The exception that leaves the [try] statement uncaught; it is raised
    again when the [finally] clause is over. *)
Definition pending (ex : loop_exit) : option exn :=
  match ex with
  | Failed KeyboardInterrupt => None
  | Failed e => Some e
  | _ => None
  end.

(** Line 177. *)
Definition restore_handler (previous : nat) (w : world) : world :=
  let w := log (SignalSignal (HostHandler previous)) w in
  {| st := st w; sigint := HostHandler previous;
     next_handle := next_handle w; trace := trace w |}.

(** Lines 180-186. *)
Definition result_of (x : state) : result str :=
  if error_set x then
    Raise (runtime_error
             (py "ASR failed: "
              ++ match error x with Some e => e | None => [] end))
  else Return (transcript x).

(** Lines 174-186: the [except KeyboardInterrupt] and [finally] clauses,
    then the result. *)
Definition conclude (previous : nat) (stop : call) (ex : loop_exit)
           (w : world) : world * result str :=
  let w := restore_handler previous (after_except ex w) in
  match stop_recognition stop w with
  | (w, Some e) => (w, Raise e)
  | (w, None) =>
      match pending ex with
      | Some e => (w, Raise e)
      | None => (w, result_of (st w))
      end
  end.

(** Lines 43-57 and 147-156: up to the [try]. *)
Definition prepare (env : environment) : world * option exn :=
  let w := {| st := initial_state; sigint := HostHandler (previous_handler env);
              next_handle := 0; trace := [] |} in
  let w := match api_key (config env) with
           | Some k => if truthy k then log (SetApiKey k) w else w
           | None => w
           end in
  let w := match websocket_url (config env) with
           | Some u => if truthy u then log (SetWebsocketUrl u) w else w
           | None => w
           end in
  let w := log (SignalSignal SessionHandler) w in
  let w := {| st := st w; sigint := SessionHandler;
              next_handle := next_handle w; trace := trace w |} in
  let w := deliver_all (during (start env)) (log RecognitionStart w) in
  match raised (start env) with
  | Some e => (w, Some e)
  | None =>
      (log (PrintLine (py "Press 'Ctrl+C' to stop recording and recognition...")) w,
       None)
  end.

(** [RealtimeASRClient.transcribe_once].  The result is [None] when the
    script ends with the session still running. *)
Definition transcribe_once (env : environment)
  : option (world * result str) :=
  if negb (dependencies env) then
    Some ({| st := initial_state; sigint := HostHandler (previous_handler env);
             next_handle := 0; trace := [] |},
          Raise (runtime_error
                   (py "Missing dependencies. Please install: pip install dashscope pyaudio")))
  else
    match prepare env with
    | (w, Some e) => Some (w, Raise e)
    | (w, None) =>
        match drive (config env) (script env) w with
        | None => None
        | Some (w, ex) =>
            Some (conclude (previous_handler env) (stop env) ex w)
        end
    end.

(** The defaults of [RealtimeASRConfig]. *)
Definition default_config : RealtimeASRConfig :=
  {| model := py "fun-asr-realtime"; format := py "pcm";
     sample_rate := 16000; channels := 1; block_size := 3200;
     semantic_punctuation_enabled := false; api_key := None;
     websocket_url :=
       Some (py "wss://dashscope.aliyuncs.com/api-ws/v1/inference") |}.

(** A call that returns with nothing happening meanwhile. *)
Definition quiet : call := {| during := []; raised := None |}.

(** A session in which Ctrl+C is pressed during a blocking read that then
    fails. *)
Definition stream_closed : exn := Exception (py "OSError") (py "Stream closed").

Definition read_fails_after_sigint : iteration :=
  {| blocking := {| during := [Sigint]; raised := Some stream_closed |};
     sending := quiet |}.

Definition read_race : environment :=
  {| config := default_config; dependencies := true; previous_handler := 0;
     start := {| during := [OnOpen true]; raised := None |};
     script := [read_fails_after_sigint];
     stop := {| during := [OnComplete; OnClose]; raised := None |} |}.

(** A turn in which Ctrl+C is pressed during the send, which then fails
    because the recognition has been stopped. *)
Definition recognition_stopped : exn :=
  Exception (py "InvalidParameter") (py "Speech recognition has stopped.").

Definition send_fails_after_sigint : iteration :=
  {| blocking := quiet;
     sending := {| during := [Sigint]; raised := Some recognition_stopped |} |}.

(** A session whose [recognition.start()] fails. *)
Definition task_failed : exn :=
  Exception (py "InvalidTask") (py "Invalid task, task create failed.").

Definition start_fails : environment :=
  {| config := default_config; dependencies := true; previous_handler := 0;
     start := {| during := []; raised := Some task_failed |};
     script := [];
     stop := quiet |}.

(** A session in which a sentence is finalized and then the service
    reports an error. *)
Definition hello_final : RecognitionResult :=
  {| get_sentence := Some {| text := Some (py "hello"); is_sentence_end := true |};
     get_request_id := py "r1" |}.

Definition quota_error : error_message :=
  {| err_request_id := Some (py "r1"); err_message := Some (py "quota") |}.

Definition error_after_sentence : environment :=
  {| config := default_config; dependencies := true; previous_handler := 0;
     start := {| during := [OnOpen true]; raised := None |};
     script := [{| blocking := {| during := [OnEvent hello_final;
                                             OnError quota_error];
                                  raised := None |};
                   sending := quiet |}];
     stop := {| during := [OnComplete; OnClose]; raised := None |} |}.

(** The audio objects released so far: closed streams and terminated
    [PyAudio] instances. *)
Fixpoint released (t : list effect) : list handle :=
  match t with
  | [] => []
  | CloseStream s :: t' => s :: released t'
  | Terminate m :: t' => m :: released t'
  | _ :: t' => released t'
  end.

(** The calls that stop the service connection. *)
Definition service_stops (t : list effect) : nat :=
  length (filter (fun e => match e with RecognitionStop => true | _ => false end) t).

(** The invariant of a session on its audio objects and on the service
    connection: no object is released twice, the objects the state holds
    are not released yet, and the service is told to stop at most once, and
    only when [stopped] is set. *)
Record safe (w : world) : Prop := {
  safe_nodup : NoDup (released (trace w));
  safe_bound : forall h, In h (released (trace w)) -> h < next_handle w;
  safe_mic : forall m, mic (st w) = Some m ->
                       m < next_handle w /\ ~ In m (released (trace w));
  safe_stream : forall s, stream (st w) = Some s ->
                          s < next_handle w /\ ~ In s (released (trace w));
  safe_distinct : forall m s, mic (st w) = Some m -> stream (st w) = Some s ->
                              m <> s;
  safe_stops : service_stops (trace w) <= 1;
  safe_unstopped : stopped (st w) = false -> service_stops (trace w) = 0
}.

(** A session as line 57 leaves it. *)
Definition fresh (h : handler) : world :=
  {| st := initial_state; sigint := h; next_handle := 0; trace := [] |}.

(** What can happen to a session once it exists: an event is delivered,
    the loop takes a turn, or the stop path is invoked. *)
Inductive action :=
| Deliver (e : event)
| Turn (cfg : RealtimeASRConfig) (it : iteration)
| Stop (c : call).

Definition act (w : world) (a : action) : world :=
  match a with
  | Deliver e => deliver w e
  | Turn cfg it => fst (loop_body cfg it w)
  | Stop c => fst (stop_recognition c w)
  end.

Definition run (actions : list action) (w : world) : world :=
  fold_left act actions w.

(** The stop path, invoked once for each call of [calls]. *)
Definition stop_times (calls : list call) (w : world) : world :=
  fold_left (fun w c => fst (stop_recognition c w)) calls w.

End ASR.

(* ------------------------------------------------------------------ *)
(** ** [MessageBuilder] and the options of a request *)

Module Messages.

(** The values that messages and request options are made of. *)
#[warnings="-register-all"]
Inductive value :=
| VNone
| VBool (b : bool)
| VStr (s : str)
| VList (items : list value)
| VDict (entries : list (str * value)).

(** A [dict] with string keys, in insertion order. *)
Definition dict := list (str * value).

Fixpoint str_eqb (a b : str) : bool :=
  match a, b with
  | [], [] => true
  | x :: a', y :: b' => char_eqb x y && str_eqb a' b'
  | _, _ => false
  end.

(** [d.get(key)] *)
Fixpoint get (key : str) (d : dict) : option value :=
  match d with
  | [] => None
  | (k, v) :: d' => if str_eqb k key then Some v else get key d'
  end.

(** [d[key] = v] *)
Fixpoint setitem (key : str) (v : value) (d : dict) : dict :=
  match d with
  | [] => [(key, v)]
  | (k, x) :: d' =>
      if str_eqb k key then (k, v) :: d' else (k, x) :: setitem key v d'
  end.

(** [d.setdefault(key, v)] *)
Definition setdefault (key : str) (v : value) (d : dict) : dict :=
  match get key d with
  | Some _ => d
  | None => d ++ [(key, v)]
  end.

Definition type_name (v : value) : str :=
  match v with
  | VNone => py "NoneType"
  | VBool _ => py "bool"
  | VStr _ => py "str"
  | VList _ => py "list"
  | VDict _ => py "dict"
  end.

(** What [v.attr] raises when [v] has no such attribute. *)
Definition no_attribute (v : value) (attr : str) : exn :=
  Exception (py "AttributeError")
            (py "'" ++ type_name v ++ py "' object has no attribute '"
             ++ attr ++ py "'").

(** [MessageBuilder.create_system_message] *)
Definition create_system_message (content : str) : dict :=
  [(py "role", VStr (py "system")); (py "content", VStr content)].

Definition image_item (image_base64 : str) : value :=
  VDict [(py "type", VStr (py "image_url"));
         (py "image_url",
          VDict [(py "url", VStr (py "data:image/png;base64," ++ image_base64))])].

Definition text_item (text : str) : value :=
  VDict [(py "type", VStr (py "text")); (py "text", VStr text)].

(** [MessageBuilder.create_user_message]; [image_base64] is [None] by
    default. *)
Definition create_user_message (text : str) (image_base64 : option str)
  : dict :=
  let c := match image_base64 with
           | Some img => if truthy img then [image_item img] else []
           | None => []
           end in
  [(py "role", VStr (py "user")); (py "content", VList (c ++ [text_item text]))].

(** [MessageBuilder.create_assistant_message] *)
Definition create_assistant_message (content : str) : dict :=
  [(py "role", VStr (py "assistant")); (py "content", VStr content)].

(** [t == "text"] for what [i.get("type")] returns. *)
Definition is_text (t : option value) : bool :=
  match t with
  | Some (VStr s) => str_eqb s (py "text")
  | _ => false
  end.

(** [[i for i in items if i.get("type") == "text"]]: an item that is not a
    [dict] has no [get]. *)
Fixpoint text_items (items : list value) : result (list value) :=
  match items with
  | [] => Return []
  | i :: rest =>
      match i with
      | VDict d =>
          match text_items rest with
          | Return kept =>
              Return (if is_text (get (py "type") d) then i :: kept else kept)
          | Raise e => Raise e
          end
      | _ => Raise (no_attribute i (py "get"))
      end
  end.

(** [MessageBuilder.remove_images_from_message] *)
Definition remove_images_from_message (msg : dict) : result dict :=
  match get (py "content") msg with
  | Some (VList items) =>
      match text_items items with
      | Return kept => Return (setitem (py "content") (VList kept) msg)
      | Raise e => Raise e
      end
  | _ => Return msg
  end.

(** Lines 52-54 of [ModelClient.request]: the [extra_body] that is sent,
    from the one of the configuration. *)
Definition request_extra_body (extra_body : option dict) : dict :=
  let eb := match extra_body with
            | Some d => d
            | None => []
            end in
  setdefault (py "include_usage") (VBool true)
             (setdefault (py "enable_thinking") (VBool true) eb).

(** Every item of a list is a [dict]. *)
Definition all_dicts (items : list value) : bool :=
  forallb (fun i => match i with VDict _ => true | _ => false end) items.

End Messages.

(* ------------------------------------------------------------------ *)
(** ** Invariants of the loop of [request] *)

Module Stream.

Import Client.

(** What is written while content arrives, the echo of reasoning apart. *)
Definition content_echo (out : list output) : list output :=
  filter (fun o => match o with Reasoning _ => false | _ => true end) out.

(** The stream as the loop of line 73 meets it: the chunks it yields and,
    when the iteration fails instead of finishing (the connection breaks,
    the service reports an error), the exception it raises after them.  A
    call of [client.chat.completions.create] that raises is a source that
    fails before any chunk. *)
Record source := {
  yields : list chunk;
  fails : option exn
}.

(** [ModelClient.request] on such a stream: the exception of the iteration
    leaves [request] from inside the loop, after what the chunks before it
    have written. *)
Definition request_from (clock : nat -> Z) (s : source)
  : result ModelResponse * list output :=
  match fails s with
  | Some e => (Raise e, l_stdout (run_stream clock (yields s) init_locals))
  | None => request clock (yields s)
  end.

(** The text echoed from the reasoning sub-stream. *)
Definition reasoning_echo (out : list output) : str :=
  flat_map (fun o => match o with Reasoning s => s | _ => [] end) out.

(** A clock that does not run backwards. *)
Definition monotone (clock : nat -> Z) : Prop :=
  forall n m, n <= m -> (clock n <= clock m)%Z.

(** The echo and the buffer account for the content received: before a
    marker is seen, what was echoed and what is held back make up the
    content; after, the echo is a part of the content up to a marker. *)
Record coherent (l : locals) : Prop := {
  coh_thinking :
    l_in_action_phase l = false ->
    thinking_echo (l_stdout l) ++ l_buffer l = l_raw_content l /\
    l_time_to_thinking_end l = None;
  coh_action :
    l_in_action_phase l = true ->
    (exists rest, l_raw_content l = thinking_echo (l_stdout l) ++ rest) /\
    (exists marker, In marker action_markers /\
                    contains marker (l_raw_content l) = true) /\
    l_time_to_thinking_end l <> None
}.

(** The marks are readings of the clock, taken in order. *)
Record timed (clock : nat -> Z) (l : locals) : Prop := {
  timed_ticks : 1 <= l_ticks l;
  timed_none :
    l_first_token_received l = false ->
    l_time_to_first_token l = None /\ l_time_to_thinking_end l = None;
  timed_some :
    l_first_token_received l = true -> l_time_to_first_token l <> None;
  timed_first :
    forall t, l_time_to_first_token l = Some t ->
              exists k, k < l_ticks l /\ t = (clock k - clock 0%nat)%Z;
  timed_end :
    forall t', l_time_to_thinking_end l = Some t' ->
               exists k k',
                 l_time_to_first_token l = Some (clock k - clock 0%nat)%Z
                 /\ k <= k' /\ k' < l_ticks l
                 /\ t' = (clock k' - clock 0%nat)%Z
}.

End Stream.

(* ------------------------------------------------------------------ *)
(** ** Text without white space around it, and what a session hears *)

Module Heard.

Import ASR.

Definition starts_clean (s : str) : bool :=
  match s with
  | [] => true
  | c :: _ => negb (isspace c)
  end.

Definition ends_clean (s : str) : bool := starts_clean (rev s).

(** [s] has no white space at either end. *)
Definition clean (s : str) : Prop :=
  starts_clean s = true /\ ends_clean s = true.

(** The text a callback finalizes: that of a sentence-end event, stripped,
    when it is not blank. *)
Definition finalized_text (e : event) : option str :=
  match e with
  | OnEvent r =>
      match get_sentence r with
      | Some {| text := Some t; is_sentence_end := true |} =>
          if truthy (strip t) then Some (strip t) else None
      | _ => None
      end
  | _ => None
  end.

Definition finalized (es : list event) : list str :=
  flat_map (fun e => match finalized_text e with
                     | Some t => [t]
                     | None => []
                     end) es.



(** An event that neither opens a stream nor asks to stop. *)
Definition passive (e : event) : bool :=
  match e with
  | OnOpen true => false
  | Sigint => false
  | _ => true
  end.

Definition is_sigint (e : event) : bool :=
  match e with Sigint => true | _ => false end.

Definition is_error (e : event) : bool :=
  match e with OnError _ => true | _ => false end.

(** A turn during which no stream is opened and Ctrl+C is not pressed. *)
Definition idle (it : iteration) : bool :=
  forallb passive (during (blocking it)).

End Heard.

(* ------------------------------------------------------------------ *)
(** ** Facts about the string operations *)

Section StringFacts.

Lemma char_eqb_eq (a b : char) : char_eqb a b = true <-> a = b.
Proof. apply N.eqb_eq. Qed.

Lemma char_eqb_refl (a : char) : char_eqb a a = true.
Proof. apply N.eqb_refl. Qed.

Lemma startswith_app (pre rest : str) : startswith (pre ++ rest) pre = true.
Proof.
  induction pre as [|p pre IH]; simpl; [reflexivity|].
  now rewrite char_eqb_refl, IH.
Qed.

Lemma startswith_split (full pre : str) :
  startswith full pre = true -> full = pre ++ skipn (length pre) full.
Proof.
  revert full; induction pre as [|p pre IH]; intros full H; simpl in *.
  - reflexivity.
  - destruct full as [|c full]; [discriminate|].
    apply andb_true_iff in H as [Hc H].
    apply char_eqb_eq in Hc; subst c.
    simpl; f_equal; now apply IH.
Qed.

Lemma startswith_iff (full pre : str) :
  startswith full pre = true <-> exists rest, full = pre ++ rest.
Proof.
  split.
  - intros H; eexists; now apply startswith_split.
  - intros [rest ->]; apply startswith_app.
Qed.

(** Only the first [length pre] characters of [full] matter. *)
Lemma startswith_app_l (x y pre : str) :
  length pre <= length x ->
  startswith (x ++ y) pre = startswith x pre.
Proof.
  revert x; induction pre as [|p pre IH]; intros x Hlen; simpl in *.
  - reflexivity.
  - destruct x as [|c x]; simpl in *; [lia|].
    rewrite IH by lia; reflexivity.
Qed.

Lemma find_eq (sub s : str) :
  find sub s =
  if startswith s sub then Some 0
  else match s with
       | [] => None
       | _ :: s' => option_map S (find sub s')
       end.
Proof. destruct s; reflexivity. Qed.

(** [find] returns the offset of an occurrence ... *)
Lemma find_Some_split (sub s : str) (i : nat) :
  find sub s = Some i ->
  s = firstn i s ++ sub ++ skipn (i + length sub) s.
Proof.
  revert i; induction s as [|c s IH]; intros i H; rewrite find_eq in H.
  - destruct (startswith [] sub) eqn:E; [|discriminate].
    injection H as <-; now apply startswith_split in E.
  - destruct (startswith (c :: s) sub) eqn:E.
    + injection H as <-; now apply startswith_split in E.
    + destruct (find sub s) as [j|] eqn:F; [|discriminate].
      injection H as <-. simpl. f_equal. now apply IH.
Qed.

(** ... and no occurrence starts before it. *)
Lemma find_Some_lowest (sub s : str) (i : nat) :
  find sub s = Some i ->
  forall j, j < i -> startswith (skipn j s) sub = false.
Proof.
  revert i; induction s as [|c s IH]; intros i H j Hj; rewrite find_eq in H.
  - destruct (startswith [] sub); [|discriminate].
    injection H as <-; lia.
  - destruct (startswith (c :: s) sub) eqn:E.
    + injection H as <-; lia.
    + destruct (find sub s) as [k|] eqn:F; [|discriminate].
      injection H as <-.
      destruct j as [|j]; [exact E|].
      simpl. apply (IH k eq_refl). lia.
Qed.

Lemma find_None_no_start (sub s : str) :
  find sub s = None -> forall j, startswith (skipn j s) sub = false.
Proof.
  induction s as [|c s IH]; intros H j; rewrite find_eq in H.
  - destruct (startswith [] sub) eqn:E; [discriminate|].
    now destruct j.
  - destruct (startswith (c :: s) sub) eqn:E; [discriminate|].
    destruct (find sub s) eqn:F; [discriminate|].
    destruct j as [|j]; [exact E|]. simpl. now apply IH.
Qed.

Lemma find_app_exists (a sub b : str) :
  exists i, find sub (a ++ sub ++ b) = Some i /\ i <= length a.
Proof.
  induction a as [|c a [i [Hi Hle]]].
  - exists 0. simpl. rewrite find_eq, startswith_app. split; [reflexivity|lia].
  - rewrite find_eq.
    destruct (startswith ((c :: a) ++ sub ++ b) sub).
    + exists 0; split; [reflexivity|simpl; lia].
    + exists (S i). simpl. rewrite Hi. split; [reflexivity|lia].
Qed.

(** [contains] decides [occurs]. *)
Lemma contains_occurs (sub s : str) : contains sub s = true <-> occurs sub s.
Proof.
  unfold contains, occurs; split.
  - destruct (find sub s) as [i|] eqn:F; [|discriminate].
    intros _. apply find_Some_split in F. eauto.
  - intros (a & b & ->).
    destruct (find_app_exists a sub b) as (i & -> & _). reflexivity.
Qed.

(** When [sub] does not occur in [a] followed by all but the last character
    of [sub], the first occurrence of [sub] in [a ++ sub ++ b] is the one
    after [a]. *)
Lemma find_first_occurrence (a sub b : str) :
  contains sub (a ++ removelast sub) = false ->
  find sub (a ++ sub ++ b) = Some (length a).
Proof.
  unfold contains.
  induction a as [|c a IH]; intros H.
  - simpl. now rewrite find_eq, startswith_app.
  - rewrite find_eq in H.
    destruct (startswith ((c :: a) ++ removelast sub) sub) eqn:E;
      [discriminate|].
    simpl in H.
    destruct (find sub (a ++ removelast sub)) eqn:F; [discriminate|].
    destruct sub as [|x sub']; [discriminate|].
    set (sub := x :: sub') in *.
    assert (Hs : sub = removelast sub ++ [last sub 0%N])
      by (apply app_removelast_last; discriminate).
    assert (Hl : length sub = S (length (removelast sub))).
    { rewrite Hs at 1. rewrite length_app. simpl. lia. }
    assert (Hsb : sub ++ b = removelast sub ++ [last sub 0%N] ++ b).
    { rewrite Hs at 1. now rewrite <- app_assoc. }
    assert (E' : startswith (c :: a ++ sub ++ b) sub = false).
    { rewrite Hsb.
      change (c :: a ++ removelast sub ++ [last sub 0%N] ++ b)
        with ((c :: a) ++ removelast sub ++ [last sub 0%N] ++ b).
      rewrite app_assoc, startswith_app_l; [exact E|].
      rewrite length_app, Hl. cbn [length]. lia. }
    change (find sub (c :: a ++ sub ++ b) = Some (S (length a))).
    rewrite find_eq, E', IH by reflexivity. reflexivity.
Qed.

Lemma split1_first_occurrence (a sub b : str) :
  contains sub (a ++ removelast sub) = false ->
  split1 sub (a ++ sub ++ b) = Some (a, b).
Proof.
  intros H. unfold split1. rewrite (find_first_occurrence _ _ _ H).
  rewrite firstn_app, firstn_all, Nat.sub_diag. simpl. rewrite app_nil_r.
  rewrite skipn_app. rewrite skipn_all2 by lia.
  replace (length a + length sub - length a) with (length sub) by lia.
  rewrite skipn_app, skipn_all, Nat.sub_diag. reflexivity.
Qed.

(** The marker put back in front of [p[1]] gives the text from the marker
    on. *)
Lemma find_Some_suffix (sub s : str) (i : nat) :
  find sub s = Some i -> sub ++ skipn (i + length sub) s = skipn i s.
Proof.
  intros H.
  pose proof (find_Some_split _ _ _ H) as E.
  assert (Hi : i <= length s).
  { destruct (Nat.le_gt_cases i (length s)) as [|Hgt]; [assumption|].
    exfalso. rewrite firstn_all2 in E by lia.
    rewrite skipn_all2 in E by lia.
    apply (f_equal (@length _)) in E. rewrite !length_app in E. simpl in E.
    assert (length sub = 0) by lia.
    destruct sub; [|discriminate].
    rewrite find_eq in H. simpl in H. injection H as <-. lia. }
  rewrite E at 2.
  rewrite skipn_app, length_firstn, Nat.min_l by assumption.
  rewrite Nat.sub_diag. simpl.
  rewrite skipn_firstn_comm, Nat.sub_diag. reflexivity.
Qed.

End StringFacts.

(* ------------------------------------------------------------------ *)
(** ** The response splitter *)

Section ClientFacts.

Import Client.

Variable clock : nat -> Z.

Lemma advances_refl (l : locals) : advances l l [] [] false.
Proof.
  unfold advances. rewrite !app_nil_r, orb_false_r. repeat split; auto.
Qed.

Lemma advances_trans (l l1 l2 : locals) (c1 c2 r1 r2 : str) (t1 t2 : bool) :
  advances l l1 c1 r1 t1 -> advances l1 l2 c2 r2 t2 ->
  advances l l2 (c1 ++ c2) (r1 ++ r2) (t1 || t2).
Proof.
  intros (Hc1 & Hr1 & Ht1 & Hm1) (Hc2 & Hr2 & Ht2 & Hm2).
  unfold advances.
  rewrite Hc2, Hc1, Hr2, Hr1, Ht2, Ht1, !app_assoc, orb_assoc.
  repeat split; auto.
Qed.

Lemma note_first_token_advances (l : locals) :
  advances l (note_first_token clock l) [] [] true.
Proof.
  unfold advances, note_first_token, marked.
  destruct (l_first_token_received l) eqn:E; simpl;
    rewrite ?E, !app_nil_r; repeat split; auto; discriminate.
Qed.

Lemma scan_buffer_advances (l : locals) (buffer : str) :
  advances l (scan_buffer clock l buffer) [] [] false.
Proof.
  unfold advances, scan_buffer, marked.
  destruct (first_marker_in action_markers buffer); [|destruct (is_p buffer)];
    simpl; rewrite !app_nil_r, orb_false_r; repeat split; auto.
Qed.

Lemma on_reasoning_advances (d : delta) (l : locals) :
  advances l (on_reasoning clock d l) []
           (piece_text (r_piece d)) (piece_truthy (r_piece d)).
Proof.
  unfold on_reasoning.
  destruct (r_piece d) as [r|]; simpl; [|apply advances_refl].
  destruct (truthy r) eqn:Tr.
  - destruct (note_first_token_advances l) as (Hc & Hr & Ht & Hm).
    unfold advances, marked in *; simpl.
    rewrite Hc, Hr, Ht, !app_nil_r.
    repeat split; auto; intros; apply Hm; auto; now rewrite Ht.
  - destruct r; [apply advances_refl|discriminate].
Qed.

Lemma on_content_advances (d : delta) (l : locals) :
  advances l (on_content clock d l)
           (piece_text (content d)) [] (piece_given (content d)).
Proof.
  unfold on_content.
  destruct (content d) as [c|]; simpl; [|apply advances_refl].
  destruct (note_first_token_advances l) as (Hc & Hr & Ht & Hm).
  set (l1 := note_first_token clock l) in *.
  match goal with |- context [if _ then ?x else _] => set (l2 := x) end.
  assert (H2 : advances l l2 c [] true).
  { unfold advances, marked in *; simpl.
    rewrite Hc, Hr, Ht, !app_nil_r.
    repeat split; auto; intros; apply Hm; auto; now rewrite Ht. }
  destruct (l_in_action_phase l1); [exact H2|].
  pose proof (advances_trans _ _ _ _ _ _ _ _ _ H2
                (scan_buffer_advances l2 (l_buffer l1 ++ c)))
    as H.
  now rewrite !app_nil_r in H.
Qed.

Lemma on_chunk_advances (l : locals) (ch : chunk) :
  advances l (on_chunk clock l ch)
           (piece_text (content_piece ch)) (piece_text (reasoning_piece ch))
           (has_token ch).
Proof.
  unfold on_chunk, has_token, content_piece, reasoning_piece.
  destruct (choices ch) as [|d ds]; [apply advances_refl|].
  pose proof (advances_trans _ _ _ _ _ _ _ _ _ (on_reasoning_advances d l)
                (on_content_advances d (on_reasoning clock d l))) as H.
  now rewrite app_nil_r in H.
Qed.

Lemma concat_fragments (piece : chunk -> option str) (ch : chunk)
      (stream : list chunk) :
  concat (fragments piece (ch :: stream))
  = piece_text (piece ch) ++ concat (fragments piece stream).
Proof.
  unfold fragments; simpl. rewrite concat_app.
  destruct (piece ch); simpl; now rewrite ?app_nil_r.
Qed.

Lemma run_stream_advances (stream : list chunk) (l : locals) :
  advances l (run_stream clock stream l)
           (concat (content_fragments stream))
           (concat (reasoning_fragments stream))
           (existsb has_token stream).
Proof.
  revert l; induction stream as [|ch stream IH]; intros l.
  - apply advances_refl.
  - unfold content_fragments, reasoning_fragments.
    rewrite !concat_fragments. simpl.
    exact (advances_trans _ _ _ _ _ _ _ _ _ (on_chunk_advances l ch) (IH _)).
Qed.

Lemma fragments_content_chunks (frags : list str) :
  content_fragments (map content_chunk frags) = frags.
Proof.
  induction frags as [|f frags IH]; [reflexivity|].
  unfold content_fragments, fragments in *; simpl. now rewrite IH.
Qed.

Lemma fragments_no_reasoning (frags : list str) :
  reasoning_fragments (map content_chunk frags) = [].
Proof.
  induction frags as [|f frags IH]; [reflexivity|].
  unfold reasoning_fragments, fragments in *; simpl. exact IH.
Qed.

Lemma has_token_content_chunks (frags : list str) :
  1 <= length frags -> existsb has_token (map content_chunk frags) = true.
Proof. destruct frags; simpl; [lia|reflexivity]. Qed.

(** What [request] returns once a token has arrived: the final split is
    that of the concatenated content, unless the reasoning sub-stream is not
    blank. *)
Lemma request_returns (stream : list chunk) :
  existsb has_token stream = true ->
  exists r out,
    request clock stream = (Return r, out) /\
    raw_content r = concat (content_fragments stream) /\
    action r = snd (parse_response (raw_content r)) /\
    thinking r =
      (if truthy (strip (concat (reasoning_fragments stream)))
       then strip (concat (reasoning_fragments stream))
       else fst (parse_response (raw_content r))).
Proof.
  intros Htok. unfold request, finish.
  destruct (run_stream_advances stream (init_locals)) as (Hc & Hr & Ht & Hm).
  set (l := run_stream clock stream init_locals) in *.
  simpl in Hc, Hr, Ht. rewrite Htok in Ht.
  assert (Hs : l_time_to_first_token l <> None).
  { apply Hm; [intros H; discriminate H|exact Ht]. }
  destruct (l_time_to_first_token l) as [ttft|]; [|congruence].
  destruct (parse_response (l_raw_content l)) as [t a] eqn:P.
  eexists; eexists; split; [reflexivity|]. simpl.
  rewrite P, Hc, Hr. auto.
Qed.

Lemma on_chunk_no_token (l : locals) (ch : chunk) :
  has_token ch = false -> on_chunk clock l ch = l.
Proof.
  unfold has_token, on_chunk, content_piece, reasoning_piece.
  destruct (choices ch) as [|d ds]; [reflexivity|].
  unfold on_content, on_reasoning.
  destruct (r_piece d) as [r|]; simpl;
    destruct (content d); simpl; rewrite ?orb_true_r, ?orb_false_r;
    try discriminate; try reflexivity.
  intros ->; reflexivity.
Qed.

(** Without a token [time_to_first_token] is still [None] on line 132. *)
Lemma request_raises (stream : list chunk) :
  existsb has_token stream = false ->
  request clock stream = (Raise format_none, []).
Proof.
  intros H. unfold request.
  assert (E : run_stream clock stream init_locals = init_locals).
  { generalize init_locals.
    induction stream as [|ch stream IH]; intros l; [reflexivity|].
    simpl in *. apply orb_false_iff in H as [H1 H2].
    rewrite on_chunk_no_token by assumption. now apply IH. }
  rewrite E. reflexivity.
Qed.

End ClientFacts.

(* ------------------------------------------------------------------ *)
(** ** Properties of the response splitter *)

Section ClientProperties.

Import Client.

Variable clock : nat -> Z.

(** C1.  The guard against echoing a piece of a marker misses: on the
    content fragments ["hello d"] and ["o(action=x)"] the marker
    ["do(action="] is split by the fragment boundary, the guard on line 116
    looks at the last [len(marker)] characters of the buffer, which is the
    whole of ["hello d"], and everything is echoed as thinking text: first
    ["hello d"], with the first character of the marker, then the rest of
    the marker.  The response itself is split at the marker. *)
Theorem marker_leaks_across_fragments :
  let stream := map content_chunk [py "hello d"; py "o(action=x)"] in
  let echo := thinking_echo (snd (request clock stream)) in
  is_p (py "hello d") = false
  /\ snd (request clock stream)
     = [Thinking (py "hello d"); Thinking (py "o(action=x)");
        Metrics (clock 1 - clock 0) (clock 2 - clock 0)]
  /\ echo = py "hello do(action=x)"
  /\ contains (py "do(action=") echo = true
  /\ exists r, fst (request clock stream) = Return r
               /\ thinking r = py "hello"
               /\ action r = py "do(action=x)".
Proof.
  repeat split. eexists. repeat split.
Qed.

(** C2.  [request] raises on a stream that delivers no fragment: line 132
    formats [time_to_first_token], which is still [None], with [:.3f]. *)
Theorem request_raises_on_empty_stream :
  request clock [] = (Raise format_none, []).
Proof. reflexivity. Qed.

(** C3.  Fragmentation invariance: however a string [S] is cut into one or
    more content fragments, the response has the thinking and the action of
    the response to [S] sent as one fragment. *)
Theorem fragmentation_invariance (clock' : nat -> Z) (S : str)
        (frags : list str) :
  1 <= length frags ->
  concat frags = S ->
  exists r r' out out',
    request clock (map content_chunk frags) = (Return r, out) /\
    request clock' [content_chunk S] = (Return r', out') /\
    thinking r = thinking r' /\
    action r = action r'.
Proof.
  intros Hne HS.
  destruct (request_returns clock (map content_chunk frags))
    as (r & out & E & Hc & Ha & Ht); [now apply has_token_content_chunks|].
  destruct (request_returns clock' (map content_chunk [S]))
    as (r' & out' & E' & Hc' & Ha' & Ht'); [reflexivity|].
  exists r, r', out, out'. split; [exact E|]. split; [exact E'|].
  rewrite fragments_content_chunks in Hc, Hc'.
  rewrite fragments_no_reasoning in Ht, Ht'.
  simpl in Hc', Ht, Ht'. rewrite app_nil_r in Hc'.
  rewrite Ht, Ht', Ha, Ha', Hc, Hc', HS. auto.
Qed.

(** C4, as amended.  The split is at the first occurrence of the first
    marker, in declaration order, that occurs in the content, whatever the
    offsets of the other markers; the echo of the thinking text cuts the
    buffer in the same way. *)
Theorem split_at_first_declared_marker (content marker : str) (i : nat) :
  first_marker_in action_markers content = Some marker ->
  find marker content = Some i ->
  parse_response content = split_at i content /\
  forall l,
    l_stdout (scan_buffer clock l content)
    = l_stdout l
      ++ (if truthy (strip (firstn i content))
          then [Thinking (firstn i content)] else [])
      ++ [Newline].
Proof.
  intros Hm Hi.
  assert (Hc : contains marker content = true)
    by (unfold contains; now rewrite Hi).
  split.
  - unfold parse_response, split_at.
    simpl in Hm.
    destruct (contains (py "finish(message=") content) eqn:E1.
    + injection Hm as <-. unfold split1. rewrite Hi.
      now rewrite (find_Some_suffix _ _ _ Hi).
    + destruct (contains (py "do(action=") content) eqn:E2; [|discriminate].
      injection Hm as <-. unfold split1. rewrite Hi.
      now rewrite (find_Some_suffix _ _ _ Hi).
  - intros l. unfold scan_buffer. rewrite Hm. unfold split1. rewrite Hi.
    reflexivity.
Qed.

(** C5.  Without a primary marker: around the first ["<answer>"] the
    thinking is the text before it with ["<think>"] and ["</think>"]
    removed, stripped, and the action the text after it with ["</answer>"]
    removed, stripped; without ["<answer>"] too, the thinking is empty and
    the action the whole content. *)
Theorem secondary_form_and_fallback (content : str) :
  contains (py "finish(message=") content = false ->
  contains (py "do(action=") content = false ->
  (forall before after,
      content = before ++ py "<answer>" ++ after ->
      contains (py "<answer>") (before ++ removelast (py "<answer>")) = false ->
      parse_response content
      = (strip (remove (py "</think>") (remove (py "<think>") before)),
         strip (remove (py "</answer>") after)))
  /\ (contains (py "<answer>") content = false ->
      parse_response content = ([], content))
  /\ (forall stream,
         existsb has_token stream = true ->
         concat (content_fragments stream) = content ->
         truthy (strip (concat (reasoning_fragments stream))) = false ->
         exists r out,
           request clock stream = (Return r, out) /\
           (thinking r, action r) = parse_response content)
  /\ parse_response (py "<think>ok</think><answer>tap(x=10,y=20)</answer>")
     = (py "ok", py "tap(x=10,y=20)")
  /\ parse_response (py "just talking, no action")
     = (py "", py "just talking, no action").
Proof.
  intros H1 H2. split; [|split; [|split; [|split; reflexivity]]].
  3:{ intros stream Htok Hc Hr.
      destruct (request_returns clock stream Htok)
        as (r & out & E & Hrc & Ha & Ht).
      exists r, out. split; [exact E|].
      rewrite Ht, Ha, Hr, Hrc, Hc. symmetry. apply surjective_pairing. }
  - intros before after E Hfirst.
    unfold parse_response. rewrite H1, H2.
    assert (Hc : contains (py "<answer>") content = true).
    { apply contains_occurs. exists before, after. exact E. }
    rewrite Hc, E, (split1_first_occurrence _ _ _ Hfirst). reflexivity.
  - intros H3. unfold parse_response. now rewrite H1, H2, H3.
Qed.

(** C6.  A reasoning sub-stream that is not blank gives the thinking of the
    response: the concatenation of the reasoning fragments, stripped,
    whatever the content is. *)
Theorem reasoning_overrides_thinking (stream : list chunk) :
  truthy (strip (concat (reasoning_fragments stream))) = true ->
  exists r out,
    request clock stream = (Return r, out) /\
    thinking r = strip (concat (reasoning_fragments stream)).
Proof.
  intros H.
  assert (Htok : existsb has_token stream = true).
  { destruct (existsb has_token stream) eqn:E; [reflexivity|exfalso].
    assert (R : concat (reasoning_fragments stream) = []).
    { clear H. induction stream as [|ch stream IH]; [reflexivity|].
      simpl in E. apply orb_false_iff in E as [E1 E2].
      unfold reasoning_fragments. rewrite concat_fragments.
      fold reasoning_fragments. rewrite (IH E2), app_nil_r.
      unfold has_token in E1. apply orb_false_iff in E1 as [E1 _].
      destruct (reasoning_piece ch) as [[|c r]|]; simpl in *;
        [reflexivity|discriminate|reflexivity]. }
    rewrite R in H. discriminate H. }
  destruct (request_returns clock stream Htok) as (r & out & E & _ & _ & Ht).
  exists r, out. split; [exact E|]. now rewrite Ht, H.
Qed.

End ClientProperties.

(** C4, counterexample.  The lowest marker offset is not where
    [parse_response] splits when ["do(action="] comes before
    ["finish(message="]. *)
Lemma split_not_at_lowest_offset :
  let content := py "do(action=a)finish(message=b)" in
  contains (py "finish(message=") content = true /\
  contains (py "do(action=") content = true /\
  Client.lowest_offset Client.action_markers content = Some 0 /\
  Client.parse_response content = (py "do(action=a)", py "finish(message=b)") /\
  Client.parse_response content <> Client.split_at 0 content.
Proof.
  repeat split. intros H. discriminate H.
Qed.

(* ------------------------------------------------------------------ *)
(** ** The transcription session *)

Section SessionFacts.

Import ASR.

Lemma released_app (t1 t2 : list effect) :
  released (t1 ++ t2) = released t1 ++ released t2.
Proof.
  induction t1 as [|e t1 IH]; [reflexivity|].
  destruct e; simpl; rewrite IH; reflexivity.
Qed.

Lemma service_stops_app (t1 t2 : list effect) :
  service_stops (t1 ++ t2) = service_stops t1 + service_stops t2.
Proof.
  unfold service_stops. now rewrite filter_app, length_app.
Qed.

Lemma on_close_effects (w : world) :
  let held o := match o with Some h => [h] | None => @nil handle end in
  released (trace (on_close w))
  = released (trace w) ++ held (stream (st w)) ++ held (mic (st w))
  /\ service_stops (trace (on_close w)) = service_stops (trace w)
  /\ next_handle (on_close w) = next_handle w
  /\ mic (st (on_close w)) = None
  /\ stream (st (on_close w)) = None
  /\ stopped (st (on_close w)) = stopped (st w).
Proof.
  unfold on_close. simpl.
  destruct (stream (st w)) as [s|]; destruct (mic (st w)) as [m|]; simpl;
    rewrite ?released_app, ?service_stops_app; simpl;
    rewrite ?released_app, ?service_stops_app; simpl;
    rewrite ?app_nil_r, <- ?app_assoc, ?Nat.add_0_r; simpl; repeat split.
Qed.

(** *** The [stopped] flag *)

Lemma deliver_stopped (w : world) (e : event) :
  stopped (st (deliver w e)) = stopped (st w).
Proof.
  destruct e as [opens| | |message|res|]; simpl.
  - unfold on_open. destruct opens; reflexivity.
  - apply on_close_effects.
  - reflexivity.
  - reflexivity.
  - unfold on_event.
    destruct (get_sentence res) as [[[t|] ends]|]; try reflexivity.
    destruct (truthy (strip t)), ends; reflexivity.
  - destruct (sigint w); reflexivity.
Qed.

Lemma deliver_all_stopped (es : list event) (w : world) :
  stopped (st (deliver_all es w)) = stopped (st w).
Proof.
  revert w; induction es as [|e es IH]; intros w; [reflexivity|].
  simpl. unfold deliver_all in IH. now rewrite IH, deliver_stopped.
Qed.

Lemma loop_body_stopped (cfg : RealtimeASRConfig) (it : iteration)
      (w : world) :
  stopped (st (fst (loop_body cfg it w))) = stopped (st w).
Proof.
  unfold loop_body.
  destruct (stream (st w)) as [s|]; simpl;
    [|now rewrite deliver_all_stopped].
  destruct (raised (blocking it)) as [e|]; simpl;
    [now rewrite deliver_all_stopped|].
  match goal with |- context [deliver_all (during (sending it)) ?x] =>
    set (w1 := deliver_all (during (sending it)) x) end.
  assert (H : stopped (st w1) = stopped (st w)).
  { unfold w1. rewrite deliver_all_stopped. simpl.
    now rewrite deliver_all_stopped. }
  destruct (raised (sending it)) as [e|]; simpl.
  - destruct (benign_race (st w1) e); exact H.
  - destruct (error_set (st w1)); exact H.
Qed.

(** The guard of line 134: on a stopped session the stop path does
    nothing. *)
Lemma stop_recognition_idle (c : call) (w : world) :
  stopped (st w) = true -> stop_recognition c w = (w, None).
Proof. intros H. unfold stop_recognition. now rewrite H. Qed.

Lemma stop_recognition_stopped (c : call) (w : world) :
  stopped (st (fst (stop_recognition c w))) = true.
Proof.
  unfold stop_recognition.
  destruct (stopped (st w)) eqn:E; [exact E|].
  destruct (raised c); simpl; now rewrite deliver_all_stopped.
Qed.

Lemma act_stopped (w : world) (a : action) :
  stopped (st w) = true -> stopped (st (act w a)) = true.
Proof.
  intros H. destruct a as [e|cfg it|c]; simpl.
  - now rewrite deliver_stopped.
  - now rewrite loop_body_stopped.
  - apply stop_recognition_stopped.
Qed.

Lemma run_stopped (actions : list action) (w : world) :
  stopped (st w) = true -> stopped (st (run actions w)) = true.
Proof.
  revert w; induction actions as [|a actions IH]; intros w H; [exact H|].
  simpl. apply IH. now apply act_stopped.
Qed.

Lemma stop_times_idle (calls : list call) (w : world) :
  stopped (st w) = true -> stop_times calls w = w.
Proof.
  induction calls as [|c calls IH]; intros H; [reflexivity|].
  simpl. rewrite (stop_recognition_idle c w H). simpl.
  unfold stop_times in IH. now apply IH.
Qed.

(** *** The invariant [safe] *)

Lemma safe_fresh (h : handler) : safe (fresh h).
Proof.
  constructor; simpl; try (intros; discriminate); try contradiction; auto.
  constructor.
Qed.

(** A step that releases nothing, creates nothing and leaves the devices
    and the flag in place keeps the invariant. *)
Lemma safe_frame (w w' : world) :
  released (trace w') = released (trace w) ->
  service_stops (trace w') = service_stops (trace w) ->
  next_handle w <= next_handle w' ->
  mic (st w') = mic (st w) ->
  stream (st w') = stream (st w) ->
  stopped (st w') = stopped (st w) ->
  safe w -> safe w'.
Proof.
  intros Hr Hs Hn Hm Hst Hsp [N B M S D P U].
  constructor; rewrite ?Hr, ?Hs, ?Hm, ?Hst, ?Hsp; auto.
  - intros h Hh. specialize (B h Hh). lia.
  - intros m Em. destruct (M m Em). split; [lia|assumption].
  - intros x Ex. destruct (S x Ex). split; [lia|assumption].
Qed.

Lemma safe_on_open (opens : bool) (w : world) : safe w -> safe (on_open opens w).
Proof.
  intros H. unfold on_open. destruct opens.
  - destruct H as [N B M S D P U].
    constructor; simpl; rewrite ?released_app, ?service_stops_app; simpl;
      rewrite ?app_nil_r, ?Nat.add_0_r; auto.
    + intros h Hh. specialize (B h Hh). lia.
    + intros m [= <-]. split; [lia|]. intros Hh. specialize (B _ Hh). lia.
    + intros x [= <-]. split; [lia|]. intros Hh. specialize (B _ Hh). lia.
    + intros m x [= <-] [= <-]. lia.
  - apply safe_frame with (w := w); simpl; rewrite ?released_app, ?service_stops_app;
      simpl; rewrite ?app_nil_r, ?Nat.add_0_r; auto.
Qed.

Lemma safe_on_close (w : world) : safe w -> safe (on_close w).
Proof.
  intros [N B M S D P U].
  destruct (on_close_effects w) as (Hr & Hs & Hn & Hm & Hst & Hsp).
  constructor; rewrite ?Hr, ?Hs, ?Hn, ?Hm, ?Hst, ?Hsp; auto;
    try (intros; discriminate).
  - apply NoDup_app; [exact N| |].
    + destruct (stream (st w)) as [s|], (mic (st w)) as [m|]; simpl;
        repeat constructor; simpl; try tauto.
      specialize (D m s eq_refl eq_refl). intros [E|[]]. congruence.
    + intros h Hh Hin. apply in_app_or in Hin as [Hin|Hin].
      * destruct (stream (st w)) as [s|]; [|contradiction].
        destruct Hin as [<-|[]]. now destruct (S s eq_refl).
      * destruct (mic (st w)) as [m|]; [|contradiction].
        destruct Hin as [<-|[]]. now destruct (M m eq_refl).
  - intros h Hh. apply in_app_or in Hh as [Hh|Hh]; [now apply B|].
    apply in_app_or in Hh as [Hh|Hh].
    + destruct (stream (st w)) as [s|]; [|contradiction].
      destruct Hh as [<-|[]]. now destruct (S s eq_refl).
    + destruct (mic (st w)) as [m|]; [|contradiction].
      destruct Hh as [<-|[]]. now destruct (M m eq_refl).
Qed.

Lemma safe_deliver (w : world) (e : event) : safe w -> safe (deliver w e).
Proof.
  intros H. destruct e as [opens| | |message|res|]; simpl.
  - now apply safe_on_open.
  - now apply safe_on_close.
  - apply safe_frame with (w := w); simpl; rewrite ?released_app, ?service_stops_app;
      simpl; rewrite ?app_nil_r, ?Nat.add_0_r; auto.
  - apply safe_frame with (w := w); simpl; rewrite ?released_app, ?service_stops_app;
      simpl; rewrite ?app_nil_r, ?Nat.add_0_r; auto.
  - unfold on_event.
    destruct (get_sentence res) as [[[t|] ends]|]; try exact H.
    destruct (truthy (strip t)), ends;
      apply safe_frame with (w := w); simpl; rewrite ?released_app, ?service_stops_app;
      simpl; rewrite ?app_nil_r, ?Nat.add_0_r; auto.
  - destruct (sigint w);
      apply safe_frame with (w := w); simpl; rewrite ?released_app, ?service_stops_app;
      simpl; rewrite ?app_nil_r, ?Nat.add_0_r; auto.
Qed.

Lemma safe_deliver_all (es : list event) (w : world) :
  safe w -> safe (deliver_all es w).
Proof.
  revert w; induction es as [|e es IH]; intros w H; [exact H|].
  simpl. apply IH. now apply safe_deliver.
Qed.

(** Logging a call that is neither a release nor a stop of the service. *)
Lemma safe_log (e : effect) (w : world) :
  released [e] = [] -> service_stops [e] = 0 -> safe w -> safe (log e w).
Proof.
  intros Hr Hs. apply safe_frame; simpl;
    rewrite ?released_app, ?service_stops_app, ?Hr, ?Hs, ?app_nil_r; auto.
Qed.

Lemma safe_loop_body (cfg : RealtimeASRConfig) (it : iteration) (w : world) :
  safe w -> safe (fst (loop_body cfg it w)).
Proof.
  intros H. unfold loop_body.
  destruct (stream (st w)) as [s|]; simpl.
  2:{ apply safe_deliver_all, safe_log; auto. }
  assert (H1 : safe (deliver_all (during (blocking it))
                       (log (StreamRead s (block_size cfg)) w)))
    by (apply safe_deliver_all, safe_log; auto).
  destruct (raised (blocking it)) as [e|]; simpl; [exact H1|].
  match goal with |- context [deliver_all (during (sending it)) ?x] =>
    set (w1 := deliver_all (during (sending it)) x) end.
  assert (H2 : safe w1) by (apply safe_deliver_all, safe_log; auto).
  destruct (raised (sending it)) as [e|]; simpl.
  - destruct (benign_race (st w1) e); exact H2.
  - destruct (error_set (st w1)); exact H2.
Qed.

Lemma safe_stop_recognition (c : call) (w : world) :
  safe w -> safe (fst (stop_recognition c w)).
Proof.
  intros H. unfold stop_recognition.
  destruct (stopped (st w)) eqn:E; [exact H|].
  assert (H1 : safe (deliver_all (during c)
                       (log RecognitionStop
                            (with_state (set_stopped true (st w)) w)))).
  { apply safe_deliver_all. destruct H as [N B M S D P U].
    specialize (U E).
    constructor; simpl; rewrite ?released_app, ?service_stops_app, ?U;
      simpl; rewrite ?app_nil_r; auto.
    intros; discriminate. }
  destruct (raised c); simpl; [exact H1|].
  repeat (apply safe_log; auto).
Qed.

Lemma safe_act (w : world) (a : action) : safe w -> safe (act w a).
Proof.
  destruct a; simpl;
    [apply safe_deliver|apply safe_loop_body|apply safe_stop_recognition].
Qed.

Lemma safe_run (actions : list action) (w : world) :
  safe w -> safe (run actions w).
Proof.
  revert w; induction actions as [|a actions IH]; intros w H; [exact H|].
  simpl. apply IH. now apply safe_act.
Qed.

Lemma drive_eq (cfg : RealtimeASRConfig) (script : list iteration)
      (w : world) :
  drive cfg script w =
  if stopping (st w) then Some (w, Done)
  else match script with
       | [] => None
       | it :: rest =>
           match loop_body cfg it w with
           | (w', Continue) => drive cfg rest w'
           | (w', Break) => Some (w', Broke)
           | (w', Raised e) => Some (w', Failed e)
           end
       end.
Proof. destruct script; reflexivity. Qed.

(** The loop leaves the session as a sequence of turns leaves it. *)
Lemma drive_turns (cfg : RealtimeASRConfig) (script : list iteration)
      (w w' : world) (ex : loop_exit) :
  drive cfg script w = Some (w', ex) ->
  exists turns, w' = run (map (Turn cfg) turns) w.
Proof.
  revert w; induction script as [|it rest IH]; intros w; rewrite drive_eq.
  - destruct (stopping (st w)); [|discriminate].
    intros [= <- <-]. now exists [].
  - destruct (stopping (st w)).
    { intros [= <- <-]. now exists []. }
    destruct (loop_body cfg it w) as [w1 t] eqn:E.
    destruct t.
    + intros H. destruct (IH _ H) as [turns ->].
      exists (it :: turns). simpl. now rewrite E.
    + intros [= <- <-]. exists [it]. simpl. now rewrite E.
    + intros [= <- <-]. exists [it]. simpl. now rewrite E.
Qed.

Lemma safe_drive (cfg : RealtimeASRConfig) (script : list iteration)
      (w w' : world) (ex : loop_exit) :
  safe w -> drive cfg script w = Some (w', ex) -> safe w'.
Proof.
  intros H E. destruct (drive_turns _ _ _ _ _ E) as [turns ->].
  now apply safe_run.
Qed.

Lemma safe_prepare (env : environment) : safe (fst (prepare env)).
Proof.
  unfold prepare.
  match goal with |- context [deliver_all (during (start env)) ?x] =>
    assert (H : safe (deliver_all (during (start env)) x)) end.
  { apply safe_deliver_all.
    apply safe_frame with (w := fresh (HostHandler (previous_handler env)));
      [| | | | | |apply safe_fresh];
      destruct (api_key (config env)) as [k|]; try destruct (truthy k);
      destruct (websocket_url (config env)) as [u|]; try destruct (truthy u);
      reflexivity. }
  destruct (raised (start env)); simpl; [exact H|].
  apply safe_log; auto.
Qed.

Lemma safe_conclude (previous : nat) (stop : call) (ex : loop_exit)
      (w : world) :
  safe w -> safe (fst (conclude previous stop ex w)).
Proof.
  intros H. unfold conclude.
  assert (H1 : safe (restore_handler previous (after_except ex w))).
  { apply safe_frame with (w := w); auto;
      destruct ex as [| |[| |]]; simpl;
      rewrite ?released_app, ?service_stops_app; simpl;
      rewrite ?app_nil_r, ?Nat.add_0_r; auto. }
  apply (safe_stop_recognition stop) in H1.
  destruct (stop_recognition stop _) as [w2 [e|]]; [exact H1|].
  destruct (pending ex); exact H1.
Qed.

Lemma safe_transcribe_once (env : environment) (w : world) (r : result str) :
  transcribe_once env = Some (w, r) -> safe w.
Proof.
  unfold transcribe_once.
  destruct (dependencies env); simpl.
  2:{ intros [= <- _]. apply (safe_fresh (HostHandler (previous_handler env))). }
  pose proof (safe_prepare env) as Hp.
  destruct (prepare env) as [w0 [e|]]; simpl in Hp.
  { now intros [= <- _]. }
  destruct (drive (config env) (script env) w0) as [[w1 ex]|] eqn:D;
    [|discriminate].
  pose proof (safe_conclude (previous_handler env) (stop env) ex w1
                            (safe_drive _ _ _ _ _ Hp D)) as Hc.
  destruct (conclude (previous_handler env) (stop env) ex w1) as [w2 r2].
  now intros [= <- _].
Qed.

(** *** The recorded error *)

Lemma deliver_error_set (w : world) (e : event) :
  error_set (st w) = true -> error_set (st (deliver w e)) = true.
Proof.
  intros H. destruct e as [opens| | |message|res|]; simpl.
  - unfold on_open. destruct opens; exact H.
  - unfold on_close. simpl.
    destruct (stream (st w)), (mic (st w)); exact H.
  - exact H.
  - unfold error_set; simpl.
    destruct (err_request_id message) as [[|c r]|]; reflexivity.
  - unfold on_event.
    destruct (get_sentence res) as [[[t|] ends]|]; try exact H.
    destruct (truthy (strip t)), ends; exact H.
  - destruct (sigint w); exact H.
Qed.

Lemma deliver_all_error_set (es : list event) (w : world) :
  error_set (st w) = true -> error_set (st (deliver_all es w)) = true.
Proof.
  revert w; induction es as [|e es IH]; intros w H; [exact H|].
  simpl. apply IH. now apply deliver_error_set.
Qed.

Lemma stop_recognition_error_set (c : call) (w : world) :
  error_set (st w) = true ->
  error_set (st (fst (stop_recognition c w))) = true.
Proof.
  intros H. unfold stop_recognition.
  destruct (stopped (st w)); [exact H|].
  destruct (raised c); simpl; now apply deliver_all_error_set.
Qed.

Lemma deliver_error (w : world) (e : event) :
  error (st (deliver w e)) = error (st w) \/
  error_set (st (deliver w e)) = true.
Proof.
  destruct e as [opens| | |message|res|]; simpl.
  - left. unfold on_open. destruct opens; reflexivity.
  - left. unfold on_close. simpl.
    destruct (stream (st w)), (mic (st w)); reflexivity.
  - now left.
  - right. unfold error_set; simpl.
    destruct (err_request_id message) as [[|c r]|]; reflexivity.
  - left. unfold on_event.
    destruct (get_sentence res) as [[[t|] ends]|]; try reflexivity.
    destruct (truthy (strip t)), ends; reflexivity.
  - left. destruct (sigint w); reflexivity.
Qed.

Lemma error_ok_same (x y : state) : error y = error x -> error_ok x -> error_ok y.
Proof. unfold error_ok, error_recorded, error_set. now intros ->. Qed.

Lemma error_ok_deliver (w : world) (e : event) :
  error_ok (st w) -> error_ok (st (deliver w e)).
Proof.
  intros H. destruct (deliver_error w e) as [E|E].
  - now apply (error_ok_same (st w)).
  - now intros _.
Qed.

Lemma error_ok_deliver_all (es : list event) (w : world) :
  error_ok (st w) -> error_ok (st (deliver_all es w)).
Proof.
  revert w; induction es as [|e es IH]; intros w H; [exact H|].
  simpl. apply IH. now apply error_ok_deliver.
Qed.

Lemma error_ok_loop_body (cfg : RealtimeASRConfig) (it : iteration)
      (w : world) :
  error_ok (st w) -> error_ok (st (fst (loop_body cfg it w))).
Proof.
  intros H. unfold loop_body.
  destruct (stream (st w)) as [s|]; simpl;
    [|now apply error_ok_deliver_all].
  assert (H1 : error_ok (st (deliver_all (during (blocking it))
                               (log (StreamRead s (block_size cfg)) w))))
    by now apply error_ok_deliver_all.
  destruct (raised (blocking it)) as [e|]; simpl; [exact H1|].
  match goal with |- context [deliver_all (during (sending it)) ?x] =>
    set (w1 := deliver_all (during (sending it)) x) end.
  assert (H2 : error_ok (st w1)) by now apply error_ok_deliver_all.
  destruct (raised (sending it)) as [e|]; simpl.
  - destruct (benign_race (st w1) e); exact H2.
  - destruct (error_set (st w1)); exact H2.
Qed.

Lemma error_ok_drive (cfg : RealtimeASRConfig) (script : list iteration)
      (w w' : world) (ex : loop_exit) :
  error_ok (st w) -> drive cfg script w = Some (w', ex) -> error_ok (st w').
Proof.
  intros H E. destruct (drive_turns _ _ _ _ _ E) as [turns ->].
  clear E. revert w H. induction turns as [|it turns IH]; intros w H;
    [exact H|].
  simpl. apply IH. now apply error_ok_loop_body.
Qed.

Lemma error_ok_prepare (env : environment) : error_ok (st (fst (prepare env))).
Proof.
  unfold prepare.
  match goal with |- context [deliver_all (during (start env)) ?x] =>
    assert (H : error_ok (st (deliver_all (during (start env)) x))) end.
  { apply error_ok_deliver_all.
    destruct (api_key (config env)) as [k|]; try destruct (truthy k);
      destruct (websocket_url (config env)) as [u|]; try destruct (truthy u);
      discriminate. }
  destruct (raised (start env)); exact H.
Qed.

(** *** The handler of [SIGINT] *)

Lemma deliver_sigint (w : world) (e : event) : sigint (deliver w e) = sigint w.
Proof.
  destruct e as [opens| | |message|res|]; simpl.
  - unfold on_open. destruct opens; reflexivity.
  - unfold on_close. simpl.
    destruct (stream (st w)), (mic (st w)); reflexivity.
  - reflexivity.
  - reflexivity.
  - unfold on_event.
    destruct (get_sentence res) as [[[t|] ends]|]; try reflexivity.
    destruct (truthy (strip t)), ends; reflexivity.
  - destruct (sigint w) eqn:E; simpl; now rewrite E.
Qed.

Lemma deliver_all_sigint (es : list event) (w : world) :
  sigint (deliver_all es w) = sigint w.
Proof.
  revert w; induction es as [|e es IH]; intros w; [reflexivity|].
  simpl. unfold deliver_all in IH. now rewrite IH, deliver_sigint.
Qed.

Lemma stop_recognition_sigint (c : call) (w : world) :
  sigint (fst (stop_recognition c w)) = sigint w.
Proof.
  unfold stop_recognition. destruct (stopped (st w)); [reflexivity|].
  destruct (raised c); simpl; now rewrite deliver_all_sigint.
Qed.

(** The [finally] clause: whatever ended the loop, the handler is put back
    and the stop path has run. *)
Lemma conclude_restores (previous : nat) (stop : call) (ex : loop_exit)
      (w : world) :
  sigint (fst (conclude previous stop ex w)) = HostHandler previous /\
  stopped (st (fst (conclude previous stop ex w))) = true.
Proof.
  unfold conclude.
  pose proof (stop_recognition_sigint stop
                (restore_handler previous (after_except ex w))) as H.
  pose proof (stop_recognition_stopped stop
                (restore_handler previous (after_except ex w))) as H'.
  destruct (stop_recognition stop _) as [w2 [e|]]; simpl in *; [auto|].
  destruct (pending ex); auto.
Qed.

Lemma stop_recognition_raises (c : call) (w : world) (e : exn) :
  snd (stop_recognition c w) = Some e -> raised c = Some e.
Proof.
  unfold stop_recognition. destruct (stopped (st w)); [discriminate|].
  destruct (raised c); [auto|discriminate].
Qed.

(** Once [recognition.start()] has returned, a session that ends has the
    handler of the host back in place. *)
Lemma handler_restored_after_start (env : environment) (w : world)
      (r : result str) :
  dependencies env = true ->
  raised (start env) = None ->
  transcribe_once env = Some (w, r) ->
  sigint w = HostHandler (previous_handler env).
Proof.
  intros Hd Hs. unfold transcribe_once, prepare. rewrite Hd, Hs. simpl.
  match goal with |- context [drive ?c ?s ?x] =>
    destruct (drive c s x) as [[w1 ex]|] end; [|discriminate].
  pose proof (conclude_restores (previous_handler env) (stop env) ex w1)
    as [H _].
  destruct (conclude (previous_handler env) (stop env) ex w1) as [w2 r2].
  now intros [= <- _].
Qed.

End SessionFacts.

(* ------------------------------------------------------------------ *)
(** ** Properties of the transcription session *)

Section SessionProperties.

Import ASR.

(** C7.  Once [stopped] is set no callback, signal, loop turn or stop call
    clears it; invoking the stop path again, any number of times, leaves
    the session and everything it has done as after the first call; and no
    audio object is closed or terminated twice, nor is the service told to
    stop twice, in any run of a session and in [transcribe_once]. *)
Theorem stop_path_idempotent (w : world) (actions : list action) (c : call)
        (calls : list call) (env : environment) :
  (stopped (st w) = true -> stopped (st (run actions w)) = true)
  /\ stop_times (c :: calls) w = stop_times [c] w
  /\ (forall h,
         NoDup (released (trace (run actions (fresh h)))) /\
         service_stops (trace (run actions (fresh h))) <= 1)
  /\ (forall w' r,
         transcribe_once env = Some (w', r) ->
         NoDup (released (trace w')) /\ service_stops (trace w') <= 1).
Proof.
  split; [apply run_stopped|]. split; [|split].
  - simpl. apply stop_times_idle, stop_recognition_stopped.
  - intros h. destruct (safe_run actions _ (safe_fresh h)). auto.
  - intros w' r E. destruct (safe_transcribe_once _ _ _ E). auto.
Qed.

(** C8, as amended.  In a turn of the loop that finds the stream open: a
    failing read ends the loop with its exception, stop pending or not; a
    send that fails with an [Exception] whose message mentions "stopped",
    a stop being pending, ends the loop by [break]; every other failing
    send ends the loop with its exception.  After the loop the handler is
    restored and the stop path runs.  The [break] is concluded without the
    failure of the send: what is raised, if anything, is the exception of
    the stop path or the error recorded in the state.  An exception of the
    loop other than [KeyboardInterrupt] is raised by [transcribe_once] once
    the stop path has run, unless the stop path raises: then its exception
    is the one raised. *)
Theorem io_failure_handling (cfg : RealtimeASRConfig) (it : iteration)
        (rest : list iteration) (w : world) (s : handle) (e : exn) :
  stopping (st w) = false ->
  stream (st w) = Some s ->
  let w_read := deliver_all (during (blocking it))
                            (log (StreamRead s (block_size cfg)) w) in
  let w_send := deliver_all (during (sending it)) (log SendAudioFrame w_read) in
  (raised (blocking it) = Some e ->
   drive cfg (it :: rest) w = Some (w_read, Failed e))
  /\ (forall cls msg,
         raised (blocking it) = None ->
         raised (sending it) = Some (Exception cls msg) ->
         stopping (st w_send) = true ->
         contains (py "stopped") (lower msg) = true ->
         drive cfg (it :: rest) w = Some (w_send, Broke))
  /\ (raised (blocking it) = None ->
      raised (sending it) = Some e ->
      (forall cls msg,
          e = Exception cls msg ->
          stopping (st w_send) = false \/
          contains (py "stopped") (lower msg) = false) ->
      drive cfg (it :: rest) w = Some (w_send, Failed e))
  /\ (forall previous stop w1,
         let after := stop_recognition stop (restore_handler previous w1) in
         stopped (st (fst after)) = true
         /\ sigint (fst after) = HostHandler previous
         /\ (stopped (st w1) = false -> snd after = raised stop)
         /\ conclude previous stop Broke w1
            = (fst after,
               match snd after with
               | Some e2 => Raise e2
               | None => result_of (st (fst after))
               end)
         /\ (e <> KeyboardInterrupt ->
             conclude previous stop (Failed e) w1
             = (fst after,
                Raise match snd after with
                      | Some e2 => e2
                      | None => e
                      end)))
  /\ (forall env w1 ex,
         dependencies env = true ->
         prepare env = (w, None) ->
         config env = cfg ->
         script env = it :: rest ->
         drive cfg (it :: rest) w = Some (w1, ex) ->
         transcribe_once env
         = Some (conclude (previous_handler env) (stop env) ex w1)).
Proof.
  intros Hs Hst w_read w_send. split; [|split; [|split; [|split]]].
  5:{ intros env w1 ex Hd Hp Hc Hsc Hdr. unfold transcribe_once.
      now rewrite Hd, Hp, Hc, Hsc, Hdr. }
  - intros Hr. rewrite drive_eq, Hs. unfold loop_body. now rewrite Hst, Hr.
  - intros cls msg Hr Hse Hp Hm. rewrite drive_eq, Hs. unfold loop_body.
    rewrite Hst, Hr, Hse. fold w_read. fold w_send.
    unfold benign_race. now rewrite Hp, Hm.
  - intros Hr Hse Hn. rewrite drive_eq, Hs. unfold loop_body.
    rewrite Hst, Hr, Hse. fold w_read. fold w_send.
    assert (B : benign_race (st w_send) e = false).
    { destruct e as [| |cls msg]; try reflexivity. simpl.
      destruct (Hn cls msg eq_refl) as [-> | ->];
        [reflexivity|apply andb_false_r]. }
    now rewrite B.
  - intros previous stop w1 after.
    split; [apply stop_recognition_stopped|].
    split; [unfold after; now rewrite stop_recognition_sigint|].
    split.
    { intros Hu. unfold after, stop_recognition. simpl. rewrite Hu.
      now destruct (raised stop). }
    split.
    + unfold conclude. simpl. fold after.
      now destruct after as [w2 [e2|]].
    + intros Hk.
      assert (Hp : pending (Failed e) = Some e)
        by (destruct e; [congruence|reflexivity|reflexivity]).
      assert (Ha : after_except (Failed e) w1 = w1)
        by (destruct e; [congruence|reflexivity|reflexivity]).
      unfold conclude. rewrite Hp, Ha. fold after.
      now destruct after as [w2 [e2|]].
Qed.

(** C9.  When [recognition.start()] raises, [transcribe_once] ends with the
    handler of the session still installed: line 155 is outside the [try]
    whose [finally] clause restores the handler. *)
Theorem handler_left_installed_when_start_fails :
  exists w,
    transcribe_once start_fails = Some (w, Raise task_failed) /\
    sigint w = SessionHandler /\
    sigint w <> HostHandler (previous_handler start_fails).
Proof.
  eexists. split; [reflexivity|]. split; [reflexivity|discriminate].
Qed.

(** C10.  When the loop ends with an error recorded, [transcribe_once]
    raises, whatever sentences and partial text the state holds; when
    neither the loop nor the stop path has an exception of its own, what is
    raised is the [RuntimeError] "ASR failed: ..." of line 181. *)
Theorem recorded_error_is_raised (env : environment) (w0 w1 : world)
        (ex : loop_exit) :
  dependencies env = true ->
  prepare env = (w0, None) ->
  drive (config env) (script env) w0 = Some (w1, ex) ->
  error_recorded (st w1) = true ->
  exists w2 e,
    transcribe_once env = Some (w2, Raise e) /\
    (pending ex = None -> raised (stop env) = None ->
     exists msg, error (st w2) = Some msg /\
                 e = runtime_error (py "ASR failed: " ++ msg)).
Proof.
  intros Hd Hp Hdr Hrec.
  assert (He : error_set (st w1) = true).
  { pose proof (error_ok_prepare env) as H0. rewrite Hp in H0.
    exact (error_ok_drive _ _ _ _ _ H0 Hdr Hrec). }
  unfold transcribe_once. rewrite Hd, Hp, Hdr. simpl. unfold conclude.
  set (w' := restore_handler (previous_handler env) (after_except ex w1)).
  assert (He' : error_set (st w') = true).
  { unfold w'. destruct ex as [| |[| |]]; exact He. }
  pose proof (stop_recognition_error_set (stop env) w' He') as H2.
  pose proof (stop_recognition_raises (stop env) w') as Hraise.
  destruct (stop_recognition (stop env) w') as [w2 [e|]]; simpl in *.
  - exists w2, e. split; [reflexivity|].
    intros _ Hn. specialize (Hraise e eq_refl). congruence.
  - destruct (pending ex) as [e|].
    + exists w2, e. split; [reflexivity|]. discriminate.
    + unfold result_of. rewrite H2.
      eexists; eexists. split; [reflexivity|].
      intros _ _. unfold error_set in H2.
      destruct (error (st w2)) as [msg|]; [|discriminate].
      now exists msg.
Qed.

End SessionProperties.

(** C8, counterexample.  In [read_race] the read fails with Ctrl+C
    already pressed, and [transcribe_once] raises the failure of the
    read. *)
Lemma read_failure_with_stop_pending_surfaces :
  let w0 := fst (ASR.prepare ASR.read_race) in
  let turn := ASR.loop_body ASR.default_config ASR.read_fails_after_sigint w0 in
  ASR.stopping (ASR.st w0) = false /\
  ASR.stopping (ASR.st (fst turn)) = true /\
  snd turn = ASR.Raised ASR.stream_closed /\
  option_map snd (ASR.transcribe_once ASR.read_race)
  = Some (Raise ASR.stream_closed).
Proof. repeat split. Qed.

(* ------------------------------------------------------------------ *)
(** ** The properties at work *)

(** C3 on the weather scenario. *)
Lemma fragmentation_invariance_weather :
  exists r r' out out',
    Client.request Client.ticking
                   (map Client.content_chunk Client.weather_fragments)
    = (Return r, out) /\
    Client.request Client.ticking [Client.content_chunk Client.weather_text]
    = (Return r', out') /\
    Client.thinking r = Client.thinking r' /\
    Client.action r = Client.action r'.
Proof.
  apply (fragmentation_invariance Client.ticking Client.ticking
           Client.weather_text Client.weather_fragments).
  - simpl; lia.
  - reflexivity.
Defined.

(** C4 where ["do(action="] comes first and ["finish(message="] wins. *)
Lemma split_at_finish_after_do :
  Client.parse_response (py "do(action=a)finish(message=b)")
  = Client.split_at 12 (py "do(action=a)finish(message=b)")
  /\ forall l,
      Client.l_stdout
        (Client.scan_buffer Client.ticking l (py "do(action=a)finish(message=b)"))
      = Client.l_stdout l
        ++ (if truthy (strip (firstn 12 (py "do(action=a)finish(message=b)")))
            then [Client.Thinking
                    (firstn 12 (py "do(action=a)finish(message=b)"))]
            else [])
        ++ [Client.Newline].
Proof.
  apply (split_at_first_declared_marker Client.ticking
           (py "do(action=a)finish(message=b)") (py "finish(message=") 12).
  - reflexivity.
  - reflexivity.
Defined.

(** C5 on the tagged scenario. *)
Lemma secondary_form_tagged :
  Client.parse_response (py "<think>ok</think>" ++ py "<answer>"
                         ++ py "tap(x=10,y=20)</answer>")
  = (strip (remove (py "</think>")
                   (remove (py "<think>") (py "<think>ok</think>"))),
     strip (remove (py "</answer>") (py "tap(x=10,y=20)</answer>"))).
Proof.
  apply (proj1 (secondary_form_and_fallback Client.ticking
                  (py "<think>ok</think>" ++ py "<answer>"
                   ++ py "tap(x=10,y=20)</answer>")
                  eq_refl eq_refl)
               (py "<think>ok</think>") (py "tap(x=10,y=20)</answer>")).
  - reflexivity.
  - reflexivity.
Defined.

(** C6 on a stream with reasoning and an action. *)
Lemma reasoning_overrides_on_stream :
  exists r out,
    Client.request Client.ticking
      [Client.reasoning_chunk (py " plan the tap ");
       Client.content_chunk (py "thinking aloud do(action=tap)")]
    = (Return r, out) /\
    Client.thinking r
    = strip (concat (Client.reasoning_fragments
                       [Client.reasoning_chunk (py " plan the tap ");
                        Client.content_chunk (py "thinking aloud do(action=tap)")])).
Proof.
  apply (reasoning_overrides_thinking Client.ticking
           [Client.reasoning_chunk (py " plan the tap ");
            Client.content_chunk (py "thinking aloud do(action=tap)")]).
  reflexivity.
Defined.

(** C7 on a session that is stopped, closed and stopped again. *)
Lemma stopped_session_stays_stopped :
  ASR.stopped
    (ASR.st (ASR.run [ASR.Deliver ASR.OnClose; ASR.Stop ASR.quiet]
               (fst (ASR.stop_recognition ASR.quiet
                       (ASR.fresh ASR.SessionHandler)))))
  = true.
Proof.
  apply (proj1 (stop_path_idempotent
                  (fst (ASR.stop_recognition ASR.quiet
                          (ASR.fresh ASR.SessionHandler)))
                  [ASR.Deliver ASR.OnClose; ASR.Stop ASR.quiet]
                  ASR.quiet [] ASR.read_race)).
  reflexivity.
Defined.

(** C8 on a send that fails after Ctrl+C because the recognition has
    stopped, which ends the loop by [break], and on a read that fails after
    Ctrl+C, which ends it with the exception. *)
Lemma io_failures_after_sigint :
  ASR.drive ASR.default_config [ASR.send_fails_after_sigint]
            (fst (ASR.prepare ASR.read_race))
  = Some (ASR.deliver_all [ASR.Sigint]
            (ASR.log ASR.SendAudioFrame
               (ASR.deliver_all []
                  (ASR.log (ASR.StreamRead 1 3200)
                           (fst (ASR.prepare ASR.read_race))))),
          ASR.Broke)
  /\ ASR.drive ASR.default_config [ASR.read_fails_after_sigint]
               (fst (ASR.prepare ASR.read_race))
     = Some (ASR.deliver_all [ASR.Sigint]
               (ASR.log (ASR.StreamRead 1 3200)
                        (fst (ASR.prepare ASR.read_race))),
             ASR.Failed ASR.stream_closed).
Proof.
  split.
  - apply (proj1 (proj2 (io_failure_handling ASR.default_config
                           ASR.send_fails_after_sigint []
                           (fst (ASR.prepare ASR.read_race)) 1
                           ASR.recognition_stopped eq_refl eq_refl))
                 (py "InvalidParameter") (py "Speech recognition has stopped.")).
    + reflexivity.
    + reflexivity.
    + reflexivity.
    + reflexivity.
  - apply (proj1 (io_failure_handling ASR.default_config
                    ASR.read_fails_after_sigint []
                    (fst (ASR.prepare ASR.read_race)) 1 ASR.stream_closed
                    eq_refl eq_refl)).
    reflexivity.
Defined.

(** C10 on the session with a finalized sentence and an error. *)
Lemma error_after_sentence_raises :
  exists w2 e,
    ASR.transcribe_once ASR.error_after_sentence = Some (w2, Raise e) /\
    (ASR.pending ASR.Broke = None ->
     ASR.raised (ASR.stop ASR.error_after_sentence) = None ->
     exists msg, ASR.error (ASR.st w2) = Some msg /\
                 e = ASR.runtime_error (py "ASR failed: " ++ msg)).
Proof.
  apply (recorded_error_is_raised ASR.error_after_sentence
           (fst (ASR.prepare ASR.error_after_sentence))
           (fst (ASR.loop_body ASR.default_config
                   {| ASR.blocking :=
                        {| ASR.during := [ASR.OnEvent ASR.hello_final;
                                          ASR.OnError ASR.quota_error];
                           ASR.raised := None |};
                      ASR.sending := ASR.quiet |}
                   (fst (ASR.prepare ASR.error_after_sentence))))
           ASR.Broke).
  - reflexivity.
  - reflexivity.
  - reflexivity.
  - reflexivity.
Defined.

(* ------------------------------------------------------------------ *)
(** ** More on the response splitter *)

Section StreamFacts.

Import Client Stream.

Variable clock : nat -> Z.

Lemma thinking_echo_app (a b : list output) :
  thinking_echo (a ++ b) = thinking_echo a ++ thinking_echo b.
Proof. unfold thinking_echo. apply flat_map_app. Qed.

Lemma content_echo_app (a b : list output) :
  content_echo (a ++ b) = content_echo a ++ content_echo b.
Proof. unfold content_echo. apply filter_app. Qed.

Lemma contains_inside (m a s b : str) :
  contains m s = true -> contains m (a ++ s ++ b) = true.
Proof.
  rewrite !contains_occurs. intros (x & y & ->).
  exists (a ++ x), (y ++ b). now rewrite <- !app_assoc.
Qed.

Lemma first_marker_in_Some (markers : list str) (buffer marker : str) :
  first_marker_in markers buffer = Some marker ->
  In marker markers /\ contains marker buffer = true.
Proof.
  induction markers as [|m markers IH]; simpl; [discriminate|].
  destruct (contains m buffer) eqn:E.
  - intros [= <-]. auto.
  - intros H. destruct (IH H). auto.
Qed.

Lemma coherent_init : coherent init_locals.
Proof. constructor; simpl; [auto|discriminate]. Qed.

Lemma coherent_note_first_token (l : locals) :
  coherent l -> coherent (note_first_token clock l).
Proof.
  intros [T A]. unfold note_first_token.
  destruct (l_first_token_received l); constructor; simpl; auto.
Qed.

Lemma coherent_on_reasoning (d : delta) (l : locals) :
  coherent l -> coherent (on_reasoning clock d l).
Proof.
  intros H. unfold on_reasoning.
  destruct (r_piece d) as [r|]; [|exact H].
  destruct (truthy r); [|exact H].
  apply coherent_note_first_token in H. destruct H as [T A].
  constructor; simpl; rewrite thinking_echo_app; simpl; rewrite app_nil_r; auto.
Qed.

Lemma coherent_scan_buffer (l : locals) (c : str) :
  l_in_action_phase l = false ->
  l_time_to_thinking_end l = None ->
  thinking_echo (l_stdout l) ++ l_buffer l ++ c = l_raw_content l ->
  coherent (scan_buffer clock l (l_buffer l ++ c)).
Proof.
  intros Hph Hend Hraw. unfold scan_buffer.
  set (B := l_buffer l ++ c) in *.
  destruct (first_marker_in action_markers B) as [marker|] eqn:F.
  - destruct (first_marker_in_Some _ _ _ F) as [Hin Hc].
    constructor; simpl; [discriminate|]. intros _.
    split; [|split; [|discriminate]].
    + unfold split1.
      destruct (find marker B) as [i|] eqn:Fi.
      2:{ unfold contains in Hc. now rewrite Fi in Hc. }
      destruct (truthy (strip (firstn i B))).
      * exists (skipn i B). rewrite <- Hraw, !thinking_echo_app. simpl.
        rewrite !app_nil_r, <- app_assoc. now rewrite firstn_skipn.
      * exists B. rewrite <- Hraw, !thinking_echo_app. simpl.
        now rewrite !app_nil_r.
    + exists marker. split; [exact Hin|].
      rewrite <- Hraw. rewrite <- (app_nil_r B).
      now apply contains_inside.
  - destruct (is_p B); constructor; simpl;
      try (intros E; rewrite Hph in E; discriminate E); intros _.
    + auto.
    + rewrite thinking_echo_app. simpl. rewrite !app_nil_r. auto.
Qed.

Lemma coherent_on_content (d : delta) (l : locals) :
  coherent l -> coherent (on_content clock d l).
Proof.
  intros H. unfold on_content.
  destruct (content d) as [c|]; [|exact H].
  apply coherent_note_first_token in H.
  set (l1 := note_first_token clock l) in *.
  destruct H as [T A]. simpl.
  destruct (l_in_action_phase l1) eqn:Hph.
  - destruct (A eq_refl) as ((rest & Hrest) & (marker & Hin & Hc) & Hend).
    constructor; simpl; [intros E; congruence|].
    intros _. split; [|split; [|exact Hend]].
    + exists (rest ++ c). now rewrite Hrest, app_assoc.
    + exists marker. split; [exact Hin|].
      change (l_raw_content l1 ++ c) with ([] ++ l_raw_content l1 ++ c).
      now apply contains_inside.
  - destruct (T eq_refl) as [Hraw Hend].
    match goal with |- coherent (scan_buffer clock ?x _) => set (l2 := x) end.
    apply (coherent_scan_buffer l2 c); simpl; auto.
    now rewrite <- Hraw, <- app_assoc.
Qed.

Lemma coherent_on_chunk (l : locals) (ch : chunk) :
  coherent l -> coherent (on_chunk clock l ch).
Proof.
  intros H. unfold on_chunk. destruct (choices ch) as [|d ds]; [exact H|].
  now apply coherent_on_content, coherent_on_reasoning.
Qed.

Lemma coherent_run_stream (stream : list chunk) (l : locals) :
  coherent l -> coherent (run_stream clock stream l).
Proof.
  revert l; induction stream as [|ch stream IH]; intros l H; [exact H|].
  simpl. apply IH. now apply coherent_on_chunk.
Qed.

Lemma timed_init : timed clock init_locals.
Proof. constructor; simpl; auto; discriminate. Qed.

Lemma timed_note_first_token (l : locals) :
  timed clock l ->
  timed clock (note_first_token clock l) /\
  l_first_token_received (note_first_token clock l) = true.
Proof.
  intros H. pose proof H as [K N S F E]. unfold note_first_token.
  destruct (l_first_token_received l) eqn:R.
  - split; [exact H|exact R].
  - destruct (N eq_refl) as [N1 N2].
    split; [|reflexivity]. constructor; simpl; auto; try discriminate.
    + intros t [= <-]. exists (l_ticks l). split; [lia|reflexivity].
    + rewrite N2. discriminate.
Qed.

Lemma timed_on_reasoning (d : delta) (l : locals) :
  timed clock l -> timed clock (on_reasoning clock d l).
Proof.
  intros H. unfold on_reasoning.
  destruct (r_piece d) as [r|]; [|exact H].
  destruct (truthy r); [|exact H].
  destruct (timed_note_first_token l H) as [[K N S F E] _].
  constructor; simpl; auto.
Qed.

Lemma timed_scan_buffer (l : locals) (buffer : str) :
  timed clock l -> l_first_token_received l = true ->
  timed clock (scan_buffer clock l buffer).
Proof.
  intros [K N S F E] R. unfold scan_buffer.
  destruct (first_marker_in action_markers buffer);
    [|destruct (is_p buffer); constructor; simpl; auto].
  constructor; simpl; auto.
  - intros R'. rewrite R in R'. discriminate R'.
  - intros t Ht. destruct (F t Ht) as (k & Hk & ->).
    exists k. split; [lia|reflexivity].
  - intros t' [= <-].
    destruct (l_time_to_first_token l) as [t|] eqn:T; [|now destruct (S R)].
    destruct (F t eq_refl) as (k & Hk & ->).
    exists k, (l_ticks l). repeat split; lia.
Qed.

Lemma timed_on_content (d : delta) (l : locals) :
  timed clock l -> timed clock (on_content clock d l).
Proof.
  intros H. unfold on_content.
  destruct (content d) as [c|]; [|exact H].
  destruct (timed_note_first_token l H) as [H1 R].
  set (l1 := note_first_token clock l) in *. simpl.
  assert (H2 : timed clock
                 {| l_raw_content := l_raw_content l1 ++ c;
                    l_raw_reasoning := l_raw_reasoning l1;
                    l_buffer := l_buffer l1;
                    l_in_action_phase := l_in_action_phase l1;
                    l_first_token_received := l_first_token_received l1;
                    l_time_to_first_token := l_time_to_first_token l1;
                    l_time_to_thinking_end := l_time_to_thinking_end l1;
                    l_ticks := l_ticks l1; l_stdout := l_stdout l1 |})
    by (destruct H1; constructor; simpl; auto).
  destruct (l_in_action_phase l1); [exact H2|].
  now apply timed_scan_buffer.
Qed.

Lemma timed_run_stream (stream : list chunk) (l : locals) :
  timed clock l -> timed clock (run_stream clock stream l).
Proof.
  revert l; induction stream as [|ch stream IH]; intros l H; [exact H|].
  simpl. apply IH. unfold on_chunk.
  destruct (choices ch) as [|d ds]; [exact H|].
  now apply timed_on_content, timed_on_reasoning.
Qed.

(** What [finish] returns, read off the locals. *)
Lemma finish_returns (l : locals) (r : ModelResponse) (out : list output) :
  finish clock l = (Return r, out) ->
  raw_content r = l_raw_content l /\
  time_to_first_token r = l_time_to_first_token l /\
  time_to_thinking_end r = l_time_to_thinking_end l /\
  total_time r = Some (clock (l_ticks l) - clock 0%nat)%Z /\
  action r = snd (parse_response (l_raw_content l)) /\
  thinking r = (if truthy (strip (l_raw_reasoning l))
                then strip (l_raw_reasoning l)
                else fst (parse_response (l_raw_content l))) /\
  thinking_echo out
  = thinking_echo (l_stdout l)
    ++ (if l_in_action_phase l then [] else l_buffer l) /\
  l_time_to_first_token l <> None.
Proof.
  unfold finish.
  destruct (parse_response (l_raw_content l)) as [t a].
  destruct (l_time_to_first_token l) as [ttft|]; [|discriminate].
  intros [= <- <-]. simpl. repeat split; [|discriminate].
  rewrite !thinking_echo_app. simpl. rewrite app_nil_r. f_equal.
  destruct (l_buffer l), (l_in_action_phase l); simpl;
    rewrite ?app_nil_r; reflexivity.
Qed.

End StreamFacts.

(* ------------------------------------------------------------------ *)
(** ** Facts about [strip] *)

Section StripFacts.

Import Heard.

Lemma lstrip_starts_clean (s : str) : starts_clean (lstrip s) = true.
Proof.
  induction s as [|c s IH]; [reflexivity|].
  simpl. destruct (isspace c) eqn:E; [exact IH|]. simpl. now rewrite E.
Qed.

Lemma lstrip_clean_id (s : str) : starts_clean s = true -> lstrip s = s.
Proof.
  destruct s as [|c s]; [reflexivity|]. simpl.
  now destruct (isspace c).
Qed.

(** [lstrip] drops a prefix and [rstrip] a suffix. *)
Lemma lstrip_suffix (s : str) : exists a, s = a ++ lstrip s.
Proof.
  induction s as [|c s [a IH]]; [now exists []|].
  simpl. destruct (isspace c).
  - exists (c :: a). simpl. now f_equal.
  - now exists [].
Qed.

Lemma rstrip_prefix (s : str) : exists b, s = rstrip s ++ b.
Proof.
  unfold rstrip. destruct (lstrip_suffix (rev s)) as [a E].
  exists (rev a). rewrite <- rev_app_distr, <- E. now rewrite rev_involutive.
Qed.

Lemma lstrip_snoc (s : str) (c : char) :
  isspace c = false -> lstrip (s ++ [c]) = lstrip s ++ [c].
Proof.
  intros E. induction s as [|x s IH]; simpl.
  - now rewrite E.
  - destruct (isspace x); [exact IH|reflexivity].
Qed.

Lemma rstrip_ends_clean (s : str) : ends_clean (rstrip s) = true.
Proof.
  unfold ends_clean, rstrip. rewrite rev_involutive.
  apply lstrip_starts_clean.
Qed.

Lemma rstrip_clean_id (s : str) : ends_clean s = true -> rstrip s = s.
Proof.
  unfold ends_clean, rstrip. intros H.
  rewrite lstrip_clean_id by exact H. apply rev_involutive.
Qed.

Lemma rstrip_starts_clean (s : str) :
  starts_clean s = true -> starts_clean (rstrip s) = true.
Proof.
  destruct s as [|c s]; [reflexivity|]. simpl. intros H.
  apply negb_true_iff in H.
  unfold rstrip. simpl. rewrite (lstrip_snoc _ _ H).
  rewrite rev_app_distr. simpl. now rewrite H.
Qed.

Lemma strip_clean (s : str) : clean (strip s).
Proof.
  split.
  - apply rstrip_starts_clean, lstrip_starts_clean.
  - apply rstrip_ends_clean.
Qed.

Lemma clean_strip_id (s : str) : clean s -> strip s = s.
Proof.
  intros [H1 H2]. unfold strip.
  rewrite (lstrip_clean_id _ H1). now apply rstrip_clean_id.
Qed.

(** [strip] keeps a piece of the text. *)
Lemma strip_inside (s : str) : exists a b, s = a ++ strip s ++ b.
Proof.
  destruct (lstrip_suffix s) as [a Ea].
  destruct (rstrip_prefix (lstrip s)) as [b Eb].
  exists a, b. unfold strip. now rewrite <- Eb.
Qed.

Lemma contains_strip (m s : str) :
  contains m (strip s) = true -> contains m s = true.
Proof.
  intros H. destruct (strip_inside s) as (a & b & E).
  rewrite E. now apply contains_inside.
Qed.

End StripFacts.

(* ------------------------------------------------------------------ *)
(** ** More properties of the response splitter *)

Section StreamProperties.

Import Client Stream Heard.

Variable clock : nat -> Z.

Lemma thinking_echo_content_echo (out : list output) :
  thinking_echo (content_echo out) = thinking_echo out.
Proof.
  induction out as [|o out IH]; [reflexivity|].
  destruct o; simpl; unfold thinking_echo in *; simpl; now rewrite ?IH.
Qed.

Lemma note_first_token_phase (l : locals) :
  let l' := note_first_token clock l in
  l_in_action_phase l' = l_in_action_phase l /\
  l_buffer l' = l_buffer l /\
  l_time_to_thinking_end l' = l_time_to_thinking_end l /\
  l_stdout l' = l_stdout l.
Proof.
  unfold note_first_token. destruct (l_first_token_received l); simpl; auto.
Qed.

Lemma on_reasoning_phase (d : delta) (l : locals) :
  let l' := on_reasoning clock d l in
  l_in_action_phase l' = l_in_action_phase l /\
  l_buffer l' = l_buffer l /\
  l_time_to_thinking_end l' = l_time_to_thinking_end l /\
  content_echo (l_stdout l') = content_echo (l_stdout l).
Proof.
  unfold on_reasoning.
  destruct (r_piece d) as [r|]; [destruct (truthy r)|]; [|simpl; auto..].
  destruct (note_first_token_phase l) as (P1 & P2 & P3 & P4).
  set (l1 := note_first_token clock l) in *. clearbody l1.
  simpl. rewrite P1, P2, P3, P4, content_echo_app. simpl.
  rewrite app_nil_r. auto.
Qed.

Lemma on_content_action_phase (d : delta) (l : locals) :
  l_in_action_phase l = true ->
  let l' := on_content clock d l in
  l_in_action_phase l' = true /\
  l_buffer l' = l_buffer l /\
  l_time_to_thinking_end l' = l_time_to_thinking_end l /\
  content_echo (l_stdout l') = content_echo (l_stdout l).
Proof.
  intros H. unfold on_content.
  destruct (content d) as [c|]; [|simpl; auto].
  destruct (note_first_token_phase l) as (P1 & P2 & P3 & P4).
  set (l1 := note_first_token clock l) in *. clearbody l1.
  simpl. rewrite P1, H. simpl. rewrite P2, P3, P4. auto.
Qed.

Lemma action_phase_on_chunk (l : locals) (ch : chunk) :
  l_in_action_phase l = true ->
  let l' := on_chunk clock l ch in
  l_in_action_phase l' = true /\
  l_buffer l' = l_buffer l /\
  l_time_to_thinking_end l' = l_time_to_thinking_end l /\
  content_echo (l_stdout l') = content_echo (l_stdout l).
Proof.
  intros H. unfold on_chunk.
  destruct (choices ch) as [|d ds]; [simpl; auto|].
  destruct (on_reasoning_phase d l) as (R1 & R2 & R3 & R4).
  rewrite H in R1.
  destruct (on_content_action_phase d _ R1) as (C1 & C2 & C3 & C4).
  simpl. rewrite C2, C3, C4, R2, R3, R4. auto.
Qed.

Lemma find_not_before (m s : str) (i : nat) :
  m <> [] -> find m s = Some i -> contains m (firstn i s) = false.
Proof.
  intros Hm Hi. destruct (contains m (firstn i s)) eqn:E; [|reflexivity].
  exfalso. apply contains_occurs in E as (a & b & E).
  assert (Hs : s = a ++ m ++ (b ++ skipn i s)).
  { rewrite <- (firstn_skipn i s) at 1. rewrite E.
    now rewrite <- !app_assoc. }
  destruct (find_app_exists a m (b ++ skipn i s)) as (j & Hj & Hle).
  rewrite <- Hs, Hi in Hj. injection Hj as ->.
  pose proof (firstn_le_length j s) as Hlen.
  rewrite E, !length_app in Hlen.
  destruct m; [congruence|simpl in Hlen; lia].
Qed.

Lemma parse_response_action_marker (content marker : str) :
  In marker action_markers -> contains marker content = true ->
  exists m, In m action_markers /\
            startswith (snd (parse_response content)) m = true.
Proof.
  intros Hin Hc. unfold parse_response, split1.
  destruct (contains (py "finish(message=") content) eqn:E1.
  - exists (py "finish(message="). split; [now left|].
    unfold contains in E1.
    destruct (find (py "finish(message=") content); [|discriminate].
    apply startswith_app.
  - assert (E2 : contains (py "do(action=") content = true).
    { destruct Hin as [<-|[<-|[]]]; congruence. }
    rewrite E2. exists (py "do(action="). split; [right; now left|].
    unfold contains in E2.
    destruct (find (py "do(action=") content); [|discriminate].
    apply startswith_app.
Qed.

(** X1.  [request] returns a [ModelResponse] exactly when the stream
    finishes without raising and has delivered a token (a content fragment,
    even an empty one, or a non-empty reasoning fragment).  A stream that
    finishes without a token makes it raise the [TypeError] of line 132,
    with nothing written; a stream that raises makes it raise that
    exception, after what the chunks before it have written and without
    the metrics of line 132. *)
Theorem request_returns_iff_token (s : source) :
  ((exists r out, request_from clock s = (Return r, out))
   <-> fails s = None /\ existsb has_token (yields s) = true)
  /\ (fails s = None -> existsb has_token (yields s) = false ->
      request_from clock s = (Raise format_none, []))
  /\ (forall e, fails s = Some e ->
                request_from clock s
                = (Raise e, l_stdout (run_stream clock (yields s) init_locals))
                /\ forall a b, ~ In (Metrics a b) (snd (request_from clock s))).
Proof.
  unfold request_from. split; [split|split].
  - intros (r & out & E). destruct (fails s) as [e|]; [discriminate E|].
    split; [reflexivity|].
    destruct (existsb has_token (yields s)) eqn:T; [reflexivity|].
    rewrite (request_raises clock _ T) in E. discriminate E.
  - intros [-> T].
    destruct (request_returns clock _ T) as (r & out & E & _).
    now exists r, out.
  - intros ->. apply request_raises.
  - intros e ->. split; [reflexivity|]. simpl.
    assert (G : forall stream l,
               (forall a b, ~ In (Metrics a b) (l_stdout l)) ->
               forall a b, ~ In (Metrics a b)
                                (l_stdout (run_stream clock stream l))).
    { clear. induction stream as [|ch stream IH]; intros l H; [exact H|].
      simpl. apply IH. clear IH. unfold on_chunk.
      destruct (choices ch) as [|d ds]; [exact H|].
      assert (H1 : forall a b,
                 ~ In (Metrics a b) (l_stdout (on_reasoning clock d l))).
      { unfold on_reasoning.
        destruct (r_piece d) as [r|]; [destruct (truthy r)|]; try exact H.
        destruct (note_first_token_phase l) as (_ & _ & _ & Ho).
        simpl. rewrite Ho. intros a b Hin.
        apply in_app_or in Hin as [Hin|[Hin|[]]];
          [now apply (H a b)|discriminate Hin]. }
      set (l1 := on_reasoning clock d l) in *. clearbody l1.
      unfold on_content. destruct (content d) as [c|]; [|exact H1].
      destruct (note_first_token_phase l1) as (_ & _ & _ & Ho).
      set (l2 := note_first_token clock l1) in *. clearbody l2.
      rewrite <- Ho in H1.
      cbv zeta. cbn [l_in_action_phase l_buffer].
      destruct (l_in_action_phase l2); [exact H1|].
      unfold scan_buffer.
      destruct (first_marker_in action_markers (l_buffer l2 ++ c));
        [|destruct (is_p (l_buffer l2 ++ c))]; simpl; try exact H1;
        intros a b Hin; apply in_app_or in Hin as [Hin|Hin];
        try (now apply (H1 a b)).
      - apply in_app_or in Hin as [Hin|[Hin|[]]]; [|discriminate Hin].
        destruct (truthy _); [|contradiction].
        destruct Hin as [Hin|[]]. discriminate Hin.
      - destruct Hin as [Hin|[]]. discriminate Hin. }
    apply G. intros a b [].
Qed.

(** X2.  The [raw_content] of a response is the exact concatenation of the
    content fragments of the stream, in order, whatever the phase they
    arrived in and whatever reasoning came in between. *)
Theorem raw_content_is_all_content (stream : list chunk) (r : ModelResponse)
        (out : list output) :
  request clock stream = (Return r, out) ->
  raw_content r = concat (content_fragments stream).
Proof.
  intros E. apply finish_returns in E as (-> & _).
  now destruct (run_stream_advances clock stream init_locals) as (-> & _).
Qed.

(** X3.  The action phase is final and silent: once a marker has been seen,
    later chunks leave the phase, the buffer and [time_to_thinking_end] as
    they are, write nothing but the echo of reasoning, and the end of the
    stream echoes no more thinking text. *)
Theorem action_phase_is_silent (l : locals) (stream : list chunk) :
  l_in_action_phase l = true ->
  let l' := run_stream clock stream l in
  l_in_action_phase l' = true /\
  l_buffer l' = l_buffer l /\
  l_time_to_thinking_end l' = l_time_to_thinking_end l /\
  content_echo (l_stdout l') = content_echo (l_stdout l) /\
  thinking_echo (snd (finish clock l')) = thinking_echo (l_stdout l).
Proof.
  intros H.
  assert (G : l_in_action_phase (run_stream clock stream l) = true /\
              l_buffer (run_stream clock stream l) = l_buffer l /\
              l_time_to_thinking_end (run_stream clock stream l)
              = l_time_to_thinking_end l /\
              content_echo (l_stdout (run_stream clock stream l))
              = content_echo (l_stdout l)).
  { revert l H. induction stream as [|ch stream IH]; intros l H; [simpl; auto|].
    simpl. destruct (action_phase_on_chunk l ch H) as (H1 & H2 & H3 & H4).
    destruct (IH _ H1) as (G1 & G2 & G3 & G4).
    rewrite G2, G3, G4. auto. }
  destruct G as (G1 & G2 & G3 & G4). simpl. repeat split; auto.
  rewrite <- (thinking_echo_content_echo (l_stdout l)), <- G4,
    thinking_echo_content_echo.
  unfold finish. rewrite G1, andb_false_r.
  destruct (parse_response _) as [t a].
  destruct (l_time_to_first_token _); simpl;
    rewrite ?thinking_echo_app; simpl; now rewrite ?app_nil_r.
Qed.

(** X4.  The thinking text echoed by a request is a prefix of the content
    received, and it is all of the content when the loop saw no marker
    ([time_to_thinking_end] is [None]): text held back as a possible marker
    is echoed at the end of the stream. *)
Theorem echo_is_prefix_of_content (stream : list chunk) (r : ModelResponse)
        (out : list output) :
  request clock stream = (Return r, out) ->
  exists rest,
    raw_content r = thinking_echo out ++ rest /\
    (time_to_thinking_end r = None -> rest = []).
Proof.
  intros E. apply finish_returns in E as (-> & _ & -> & _ & _ & _ & -> & _).
  destruct (coherent_run_stream clock stream _ coherent_init) as [T A].
  destruct (l_in_action_phase (run_stream clock stream init_locals)).
  - destruct (A eq_refl) as ((rest & Hr) & _ & Hend).
    exists rest. rewrite app_nil_r. split; [exact Hr|]. intros; contradiction.
  - destruct (T eq_refl) as [Hr _]. exists []. rewrite app_nil_r. auto.
Qed.

(** X5.  With a clock that does not run backwards the marks of a response
    are in order: [0 <= time_to_first_token <= total_time], and
    [time_to_thinking_end], when set, lies between the two. *)
Theorem marks_are_in_order (stream : list chunk) (r : ModelResponse)
        (out : list output) :
  monotone clock ->
  request clock stream = (Return r, out) ->
  exists a c,
    time_to_first_token r = Some a /\ total_time r = Some c /\
    (0 <= a <= c)%Z /\
    forall b, time_to_thinking_end r = Some b -> (a <= b <= c)%Z.
Proof.
  intros M E.
  apply finish_returns in E as (_ & Ha & Hb & Hc & _ & _ & _ & Hs).
  destruct (timed_run_stream clock stream _ (timed_init clock))
    as [K N S F En].
  set (l := run_stream clock stream init_locals) in *.
  destruct (l_time_to_first_token l) as [a|] eqn:T; [|congruence].
  destruct (F a eq_refl) as (k & Hk & ->).
  exists (clock k - clock 0%nat)%Z, (clock (l_ticks l) - clock 0%nat)%Z.
  split; [exact Ha|]. split; [exact Hc|].
  pose proof (M 0 k ltac:(lia)). pose proof (M k (l_ticks l) ltac:(lia)).
  split; [lia|].
  intros b Eb. rewrite Hb in Eb.
  destruct (En b Eb) as (k0 & k' & E0 & Hle & Hlt & ->).
  injection E0 as E0.
  pose proof (M k0 k' Hle). pose proof (M k' (l_ticks l) ltac:(lia)).
  lia.
Qed.

(** X6.  When the loop has seen a marker ([time_to_thinking_end] is set),
    a primary marker occurs in the content and the response is split at
    one: the action is the content from the first occurrence of the first
    marker, in declaration order, that occurs in it, so it starts with a
    marker literal and the fallback split is not returned.  (That marker
    need not be the one at which the loop cut the echo.) *)
Theorem seen_marker_starts_action (stream : list chunk) (r : ModelResponse)
        (out : list output) (t : Z) :
  request clock stream = (Return r, out) ->
  time_to_thinking_end r = Some t ->
  exists marker i,
    first_marker_in action_markers (raw_content r) = Some marker /\
    find marker (raw_content r) = Some i /\
    action r = skipn i (raw_content r) /\
    startswith (action r) marker = true.
Proof.
  intros E Ht.
  apply finish_returns in E as (-> & _ & Hb & _ & -> & _).
  destruct (coherent_run_stream clock stream _ coherent_init) as [T A].
  set (raw := l_raw_content (run_stream clock stream init_locals)) in *.
  destruct (l_in_action_phase (run_stream clock stream init_locals)).
  2:{ destruct (T eq_refl) as [_ Hn]. congruence. }
  destruct (A eq_refl) as (_ & (m0 & Hin & Hc) & _).
  assert (F : exists marker, first_marker_in action_markers raw = Some marker).
  { simpl. destruct (contains (py "finish(message=") raw) eqn:E1; [eauto|].
    destruct (contains (py "do(action=") raw) eqn:E2; [eauto|].
    destruct Hin as [<-|[<-|[]]]; congruence. }
  destruct F as [marker F].
  destruct (first_marker_in_Some _ _ _ F) as [_ Hm].
  unfold contains in Hm.
  destruct (find marker raw) as [i|] eqn:Fi; [|discriminate Hm].
  exists marker, i. split; [exact F|]. split; [exact Fi|].
  assert (Ea : snd (parse_response raw) = skipn i raw).
  { unfold parse_response, split1. simpl in F.
    destruct (contains (py "finish(message=") raw) eqn:E1.
    - injection F as <-. rewrite Fi. simpl.
      apply (find_Some_suffix _ _ _ Fi).
    - destruct (contains (py "do(action=") raw) eqn:E2; [|discriminate F].
      injection F as <-. rewrite Fi. simpl.
      apply (find_Some_suffix _ _ _ Fi). }
  split; [exact Ea|].
  rewrite Ea, <- (find_Some_suffix _ _ _ Fi). apply startswith_app.
Qed.

(** X7.  The thinking that [_parse_response] returns, and the thinking of
    every response, has no white space at its ends: stripping it again
    changes nothing. *)
Theorem thinking_is_stripped (content : str) :
  clean (fst (parse_response content)) /\
  strip (fst (parse_response content)) = fst (parse_response content) /\
  forall stream r out,
    request clock stream = (Return r, out) ->
    clean (thinking r) /\ strip (thinking r) = thinking r.
Proof.
  assert (P : forall c, clean (fst (parse_response c))).
  { intros c. unfold parse_response.
    destruct (contains (py "finish(message=") c).
    { destruct (split1 _ c) as [[p0 p1]|]; [apply strip_clean|now split]. }
    destruct (contains (py "do(action=") c).
    { destruct (split1 _ c) as [[p0 p1]|]; [apply strip_clean|now split]. }
    destruct (contains (py "<answer>") c); [|now split].
    destruct (split1 _ c) as [[p0 p1]|]; [apply strip_clean|now split]. }
  split; [apply P|]. split; [apply clean_strip_id, P|].
  intros stream r out E.
  apply finish_returns in E as (_ & _ & _ & _ & _ & -> & _).
  assert (C : clean (if truthy (strip (l_raw_reasoning
                                         (run_stream clock stream init_locals)))
                     then strip (l_raw_reasoning
                                   (run_stream clock stream init_locals))
                     else fst (parse_response
                                 (l_raw_content
                                    (run_stream clock stream init_locals))))).
  { destruct (truthy _); [apply strip_clean|apply P]. }
  split; [exact C|now apply clean_strip_id].
Qed.

(** X8.  When a primary marker occurs in the content, the thinking that
    [_parse_response] returns never contains ["finish(message="], and when
    the split is at ["do(action="] it contains no primary marker at all. *)
Theorem thinking_has_no_split_marker (content : str) :
  contains (py "finish(message=") content
  || contains (py "do(action=") content = true ->
  contains (py "finish(message=") (fst (parse_response content)) = false /\
  (contains (py "finish(message=") content = false ->
   contains (py "do(action=") (fst (parse_response content)) = false).
Proof.
  intros H. unfold parse_response, split1.
  destruct (contains (py "finish(message=") content) eqn:E1.
  - split; [|intros C; discriminate C].
    unfold contains in E1.
    destruct (find (py "finish(message=") content) as [i|] eqn:F;
      [|discriminate E1]. simpl.
    destruct (contains _ (strip (firstn i content))) eqn:C; [|reflexivity].
    apply contains_strip in C.
    assert (Hne : py "finish(message=" <> []) by (intro X; discriminate X).
    rewrite (find_not_before _ _ _ Hne F) in C.
    discriminate C.
  - simpl in H. rewrite H.
    unfold contains in H.
    destruct (find (py "do(action=") content) as [i|] eqn:F; [|discriminate].
    simpl. split.
    + destruct (contains _ (strip (firstn i content))) eqn:C; [|reflexivity].
      apply contains_strip in C.
      assert (C' : contains (py "finish(message=") content = true).
      { rewrite <- (firstn_skipn i content).
        change (firstn i content ++ skipn i content)
          with ([] ++ firstn i content ++ skipn i content).
        now apply contains_inside. }
      congruence.
    + intros _.
      destruct (contains _ (strip (firstn i content))) eqn:C; [|reflexivity].
      apply contains_strip in C.
      assert (Hne : py "do(action=" <> []) by (intro X; discriminate X).
      rewrite (find_not_before _ _ _ Hne F) in C.
      discriminate C.
Qed.

End StreamProperties.

(* ------------------------------------------------------------------ *)
(** ** Messages and request options *)

Section MessageProperties.

Import Messages.

Lemma str_eqb_eq (a b : str) : str_eqb a b = true <-> a = b.
Proof.
  revert b; induction a as [|x a IH]; intros [|y b]; simpl;
    try (split; [discriminate|discriminate]); [tauto|].
  rewrite andb_true_iff, char_eqb_eq, IH. split.
  - intros [-> ->]. reflexivity.
  - intros [= -> ->]. auto.
Qed.

Lemma str_eqb_refl (a : str) : str_eqb a a = true.
Proof. now apply str_eqb_eq. Qed.

Lemma str_eqb_neq (a b : str) : a <> b -> str_eqb a b = false.
Proof.
  intros H. destruct (str_eqb a b) eqn:E; [|reflexivity].
  now apply str_eqb_eq in E.
Qed.

Lemma get_setitem_same (key : str) (v : value) (d : dict) :
  get key (setitem key v d) = Some v.
Proof.
  induction d as [|[k x] d IH]; simpl.
  - now rewrite str_eqb_refl.
  - destruct (str_eqb k key) eqn:E; simpl; now rewrite E.
Qed.

Lemma get_setitem_other (key k' : str) (v : value) (d : dict) :
  k' <> key -> get k' (setitem key v d) = get k' d.
Proof.
  intros H. induction d as [|[k x] d IH]; simpl.
  - rewrite str_eqb_neq; [reflexivity|congruence].
  - destruct (str_eqb k key) eqn:E; simpl.
    + apply str_eqb_eq in E. subst k.
      rewrite str_eqb_neq; [reflexivity|congruence].
    + now rewrite IH.
Qed.

Lemma setitem_setitem (key : str) (v v' : value) (d : dict) :
  setitem key v (setitem key v' d) = setitem key v d.
Proof.
  induction d as [|[k x] d IH]; simpl.
  - now rewrite str_eqb_refl.
  - destruct (str_eqb k key) eqn:K; simpl; rewrite K;
      [reflexivity|now rewrite IH].
Qed.

Lemma get_app_last (k' key : str) (v : value) (d : dict) :
  get k' (d ++ [(key, v)])
  = match get k' d with
    | Some x => Some x
    | None => if str_eqb key k' then Some v else None
    end.
Proof.
  induction d as [|[k x] d IH]; simpl; [reflexivity|].
  destruct (str_eqb k k'); [reflexivity|exact IH].
Qed.

Lemma get_setdefault (k' key : str) (v : value) (d : dict) :
  get k' (setdefault key v d)
  = match get k' d with
    | Some x => Some x
    | None => if str_eqb key k' then Some v else None
    end.
Proof.
  unfold setdefault. destruct (get key d) as [x|] eqn:E.
  - destruct (get k' d) eqn:E'; [reflexivity|].
    destruct (str_eqb key k') eqn:K; [|reflexivity].
    apply str_eqb_eq in K. congruence.
  - apply get_app_last.
Qed.

(** The items that [remove_images_from_message] keeps. *)
Lemma text_items_all_dicts (items : list value) :
  all_dicts items = true ->
  text_items items
  = Return (filter (fun i => match i with
                             | VDict d => is_text (get (py "type") d)
                             | _ => false
                             end) items).
Proof.
  induction items as [|i items IH]; [reflexivity|].
  simpl. destruct i; try discriminate. intros H.
  rewrite (IH H). now destruct (is_text _).
Qed.

Lemma all_dicts_filter (f : value -> bool) (items : list value) :
  all_dicts items = true -> all_dicts (filter f items) = true.
Proof.
  induction items as [|i items IH]; [reflexivity|].
  simpl. intros H. apply andb_true_iff in H as [H1 H2].
  destruct (f i); simpl; [rewrite H1|]; now apply IH.
Qed.

Lemma filter_filter (f : value -> bool) (items : list value) :
  filter f (filter f items) = filter f items.
Proof.
  induction items as [|i items IH]; [reflexivity|].
  simpl. destruct (f i) eqn:E; simpl; rewrite ?E, IH; reflexivity.
Qed.

(** X9.  Removing the images from a user message built with an image gives
    the user message built from the text alone; system and assistant
    messages, whose content is a string, come back as they are. *)
Theorem remove_images_of_built_messages (text content : str)
        (image_base64 : option str) :
  remove_images_from_message (create_user_message text image_base64)
  = Return (create_user_message text None)
  /\ remove_images_from_message (create_system_message content)
     = Return (create_system_message content)
  /\ remove_images_from_message (create_assistant_message content)
     = Return (create_assistant_message content).
Proof.
  split; [|split; reflexivity].
  destruct image_base64 as [img|]; [destruct (truthy img) eqn:T|];
    unfold create_user_message; rewrite ?T; reflexivity.
Qed.

(** X10.  On a message whose content is a list of [dict]s,
    [remove_images_from_message] keeps the items whose ["type"] is
    ["text"], in order, and nothing else of the content; the other keys of
    the message keep their values; and removing again changes nothing. *)
Theorem remove_images_keeps_text (msg : dict) (items : list value) :
  get (py "content") msg = Some (VList items) ->
  all_dicts items = true ->
  let kept := filter (fun i => match i with
                               | VDict d => is_text (get (py "type") d)
                               | _ => false
                               end) items in
  let msg' := setitem (py "content") (VList kept) msg in
  remove_images_from_message msg = Return msg'
  /\ get (py "content") msg' = Some (VList kept)
  /\ (forall k, k <> py "content" -> get k msg' = get k msg)
  /\ remove_images_from_message msg' = Return msg'.
Proof.
  intros Hc Hd kept msg'.
  assert (E : remove_images_from_message msg = Return msg').
  { unfold remove_images_from_message.
    now rewrite Hc, (text_items_all_dicts _ Hd). }
  split; [exact E|]. split; [apply get_setitem_same|].
  split; [intros k Hk; now apply get_setitem_other|].
  unfold remove_images_from_message, msg'.
  rewrite get_setitem_same, text_items_all_dicts
    by now apply all_dicts_filter.
  unfold kept. now rewrite filter_filter, setitem_setitem.
Qed.

(** X11.  When an item of the content list is not a [dict],
    [remove_images_from_message] raises the [AttributeError] of the first
    such item, which has no [get]. *)
Theorem remove_images_raises_on_non_dict (msg : dict)
        (before after : list value) (i : value) :
  get (py "content") msg = Some (VList (before ++ i :: after)) ->
  all_dicts before = true ->
  all_dicts [i] = false ->
  remove_images_from_message msg = Raise (no_attribute i (py "get")).
Proof.
  intros Hc Hb Hi. unfold remove_images_from_message. rewrite Hc.
  assert (E : text_items (before ++ i :: after)
              = Raise (no_attribute i (py "get"))).
  { clear Hc. induction before as [|b before IH]; simpl in *.
    - destruct i; try reflexivity. discriminate Hi.
    - destruct b; try discriminate. now rewrite (IH Hb). }
  now rewrite E.
Qed.

(** X12.  The [extra_body] that [request] sends always has the keys
    ["enable_thinking"] and ["include_usage"]; a key that the configuration
    sets keeps its value, the two keys included, and is [True] for the two
    keys otherwise; no other key is added. *)
Theorem extra_body_defaults (extra_body : option dict) (k : str) :
  let eb := match extra_body with Some d => d | None => [] end in
  let sent := request_extra_body extra_body in
  (forall v, get k eb = Some v -> get k sent = Some v)
  /\ (get (py "enable_thinking") eb = None ->
      get (py "enable_thinking") sent = Some (VBool true))
  /\ (get (py "include_usage") eb = None ->
      get (py "include_usage") sent = Some (VBool true))
  /\ (k <> py "enable_thinking" -> k <> py "include_usage" ->
      get k sent = get k eb).
Proof.
  intros eb sent. unfold sent, request_extra_body. fold eb.
  repeat split.
  - intros v H. now rewrite !get_setdefault, H.
  - intros H. rewrite !get_setdefault, H. reflexivity.
  - intros H. rewrite !get_setdefault, H. reflexivity.
  - intros H1 H2. rewrite !get_setdefault.
    destruct (get k eb); [reflexivity|].
    rewrite !str_eqb_neq by congruence. reflexivity.
Qed.

End MessageProperties.

(* ------------------------------------------------------------------ *)
(** ** More on the transcription session *)

Section HeardFacts.

Import ASR Heard.

Lemma deliver_sentences (w : world) (e : event) :
  sentences (st (deliver w e))
  = sentences (st w)
    ++ match finalized_text e with Some t => [t] | None => [] end.
Proof.
  destruct e as [opens| | |message|res|]; simpl; rewrite ?app_nil_r.
  - unfold on_open. destruct opens; reflexivity.
  - unfold on_close. simpl.
    destruct (stream (st w)), (mic (st w)); reflexivity.
  - reflexivity.
  - reflexivity.
  - unfold on_event.
    destruct (get_sentence res) as [[[t|] ends]|]; rewrite ?app_nil_r;
      try reflexivity.
    destruct (truthy (strip t)), ends; simpl; now rewrite ?app_nil_r.
  - destruct (sigint w); reflexivity.
Qed.

Lemma deliver_all_sentences (es : list event) (w : world) :
  sentences (st (deliver_all es w)) = sentences (st w) ++ finalized es.
Proof.
  revert w; induction es as [|e es IH]; intros w; simpl.
  - now rewrite app_nil_r.
  - unfold deliver_all in IH. rewrite IH, deliver_sentences.
    unfold finalized. simpl. now rewrite <- app_assoc.
Qed.












Lemma deliver_stopping (w : world) (e : event) :
  stopping (st w) = true -> stopping (st (deliver w e)) = true.
Proof.
  intros H. destruct e as [opens| | |message|res|]; simpl.
  - unfold on_open. destruct opens; exact H.
  - unfold on_close. simpl.
    destruct (stream (st w)), (mic (st w)); exact H.
  - exact H.
  - exact H.
  - unfold on_event.
    destruct (get_sentence res) as [[[t|] ends]|]; try exact H.
    destruct (truthy (strip t)), ends; exact H.
  - destruct (sigint w); [exact H|reflexivity].
Qed.

Lemma deliver_all_stopping (es : list event) (w : world) :
  stopping (st w) = true -> stopping (st (deliver_all es w)) = true.
Proof.
  revert w; induction es as [|e es IH]; intros w H; [exact H|].
  simpl. apply IH. now apply deliver_stopping.
Qed.

Lemma deliver_all_sigint_stops (es : list event) (w : world) :
  sigint w = SessionHandler ->
  existsb is_sigint es = true ->
  stopping (st (deliver_all es w)) = true.
Proof.
  revert w; induction es as [|e es IH]; intros w Hh H; [discriminate|].
  simpl in *. destruct (is_sigint e) eqn:E.
  - destruct e; try discriminate. simpl. rewrite Hh.
    now apply deliver_all_stopping.
  - apply IH; [now rewrite deliver_sigint|exact H].
Qed.

Lemma deliver_all_error_recorded (es : list event) (w : world) :
  existsb is_error es = true -> error_set (st (deliver_all es w)) = true.
Proof.
  revert w; induction es as [|e es IH]; intros w H; [discriminate|].
  simpl in *. destruct (is_error e) eqn:E.
  - apply deliver_all_error_set. destruct e; try discriminate.
    unfold error_set; simpl.
    destruct (err_request_id message) as [[|c r]|]; reflexivity.
  - now apply IH.
Qed.

Lemma deliver_service_stops (w : world) (e : event) :
  service_stops (trace (deliver w e)) = service_stops (trace w).
Proof.
  destruct e as [opens| | |message|res|]; simpl.
  - unfold on_open. destruct opens; simpl;
      rewrite !service_stops_app; simpl; now rewrite ?Nat.add_0_r.
  - apply on_close_effects.
  - rewrite service_stops_app. simpl. now rewrite Nat.add_0_r.
  - rewrite service_stops_app. simpl. now rewrite Nat.add_0_r.
  - unfold on_event.
    destruct (get_sentence res) as [[[t|] ends]|]; try reflexivity.
    destruct (truthy (strip t)), ends; simpl;
      rewrite ?service_stops_app; simpl; rewrite ?service_stops_app; simpl;
      now rewrite ?Nat.add_0_r.
  - destruct (sigint w); simpl; rewrite service_stops_app; simpl;
      now rewrite Nat.add_0_r.
Qed.

Lemma deliver_all_service_stops (es : list event) (w : world) :
  service_stops (trace (deliver_all es w)) = service_stops (trace w).
Proof.
  revert w; induction es as [|e es IH]; intros w; [reflexivity|].
  simpl. unfold deliver_all in IH. now rewrite IH, deliver_service_stops.
Qed.

Lemma stop_recognition_service_stops (c : call) (w : world) :
  stopped (st w) = false ->
  service_stops (trace (fst (stop_recognition c w)))
  = S (service_stops (trace w)).
Proof.
  intros H. unfold stop_recognition. rewrite H.
  destruct (raised c); cbn [fst log trace];
    rewrite ?service_stops_app, deliver_all_service_stops;
    cbn [fst log trace with_state]; rewrite service_stops_app;
    unfold service_stops; simpl; lia.
Qed.

Lemma deliver_passive (w : world) (e : event) :
  passive e = true ->
  stream (st w) = None -> stopping (st w) = false ->
  stream (st (deliver w e)) = None /\ stopping (st (deliver w e)) = false.
Proof.
  intros P Hs Hp. destruct e as [[|]| | |message|res|]; simpl;
    try discriminate; auto.
  - destruct (on_close_effects w) as (_ & _ & _ & _ & E & _).
    split; [exact E|].
    unfold on_close. simpl. destruct (stream (st w)), (mic (st w)); exact Hp.
  - unfold on_event.
    destruct (get_sentence res) as [[[t|] ends]|]; auto.
    destruct (truthy (strip t)), ends; auto.
Qed.

End HeardFacts.

(* ------------------------------------------------------------------ *)
(** ** More properties of the transcription session *)

Section HeardProperties.

Import ASR Heard.

(** X13.  Delivering events appends to [sentences], in the order of the
    events, the stripped text of every sentence-end event whose text is
    not blank, and nothing else: partial results, blank sentences, errors,
    Ctrl+C and the other callbacks leave the list as it is. *)
Theorem sentences_are_finalized_texts (es : list event) (w : world) :
  sentences (st (deliver_all es w)) = sentences (st w) ++ finalized es.
Proof. apply deliver_all_sentences. Qed.


(** X15.  Ctrl+C during the sleep or the blocking read of a turn ends the
    loop with that turn: whatever the read and the send do, and whatever the
    script holds next, no further turn is taken. *)
Theorem sigint_ends_loop_within_turn (cfg : RealtimeASRConfig)
        (it : iteration) (rest : list iteration) (w : world) :
  stopping (st w) = false ->
  sigint w = SessionHandler ->
  existsb is_sigint (during (blocking it)) = true ->
  stopping (st (fst (loop_body cfg it w))) = true /\
  exists ex, drive cfg (it :: rest) w = Some (fst (loop_body cfg it w), ex).
Proof.
  intros Hs Hh Hi.
  assert (G : stopping (st (fst (loop_body cfg it w))) = true).
  { unfold loop_body.
    destruct (stream (st w)) as [s|]; simpl.
    2:{ now apply deliver_all_sigint_stops. }
    assert (H1 : stopping (st (deliver_all (during (blocking it))
                                 (log (StreamRead s (block_size cfg)) w)))
                 = true) by now apply deliver_all_sigint_stops.
    destruct (raised (blocking it)) as [e|]; simpl; [exact H1|].
    match goal with |- context [deliver_all (during (sending it)) ?x] =>
      assert (H2 : stopping (st (deliver_all (during (sending it)) x)) = true)
        by now apply deliver_all_stopping end.
    destruct (raised (sending it)) as [e|]; simpl.
    - destruct (benign_race _ e); exact H2.
    - destruct (error_set _); exact H2. }
  split; [exact G|].
  rewrite drive_eq, Hs.
  destruct (loop_body cfg it w) as [w' [| |e]]; simpl in *; eauto.
  rewrite drive_eq, G. eauto.
Qed.

(** X16.  Once [recognition.start()] has returned, a session that ends,
    however it ends, has put the handler of the host back, has set
    [stopped] and has called [recognition.stop()] exactly once. *)
Theorem stop_runs_exactly_once (env : environment) (w : world)
        (r : result str) :
  dependencies env = true ->
  raised (start env) = None ->
  transcribe_once env = Some (w, r) ->
  sigint w = HostHandler (previous_handler env) /\
  stopped (st w) = true /\
  service_stops (trace w) = 1.
Proof.
  intros Hd Hst E.
  pose proof (safe_transcribe_once _ _ _ E) as Hsafe.
  revert E. unfold transcribe_once. rewrite Hd. simpl.
  pose proof (safe_prepare env) as Hp.
  assert (Hu : stopped (st (fst (prepare env))) = false).
  { unfold prepare. rewrite Hst. simpl. rewrite deliver_all_stopped.
    destruct (api_key (config env)) as [k|]; try destruct (truthy k);
      destruct (websocket_url (config env)) as [u|]; try destruct (truthy u);
      reflexivity. }
  assert (Hn : snd (prepare env) = None)
    by (unfold prepare; now rewrite Hst).
  destruct (prepare env) as [w0 o]; simpl in *. subst o.
  destruct (drive (config env) (script env) w0) as [[w1 ex]|] eqn:D;
    [|discriminate].
  assert (Hu1 : stopped (st w1) = false).
  { destruct (drive_turns _ _ _ _ _ D) as [turns ->]. clear D.
    revert w0 Hp Hu. induction turns as [|it turns IH]; intros w0 Hp Hu;
      [exact Hu|].
    simpl. apply IH; [now apply safe_loop_body|].
    now rewrite loop_body_stopped. }
  pose proof (safe_drive _ _ _ _ _ Hp D) as H1.
  pose proof (conclude_restores (previous_handler env) (stop env) ex w1)
    as [Hh Hs].
  assert (Hc : service_stops
                 (trace (fst (conclude (previous_handler env) (stop env)
                                       ex w1))) = 1).
  { unfold conclude.
    set (w' := restore_handler (previous_handler env) (after_except ex w1)).
    assert (Hw : stopped (st w') = false /\ service_stops (trace w') = 0).
    { destruct H1 as [_ _ _ _ _ _ U]. specialize (U Hu1).
      unfold w'. destruct ex as [| |[| |]]; simpl;
        rewrite service_stops_app, U; auto. }
    destruct Hw as [Hw1 Hw2].
    pose proof (stop_recognition_service_stops (stop env) w' Hw1) as Hx.
    rewrite Hw2 in Hx.
    destruct (stop_recognition (stop env) w') as [w2 [e|]];
      [exact Hx|]. destruct (pending ex); exact Hx. }
  destruct (conclude (previous_handler env) (stop env) ex w1) as [w2 r2].
  intros [= <- <-]. auto.
Qed.

(** X17.  While no stream is open the loop checks neither the read nor the
    recorded error: as long as no stream is opened and Ctrl+C is not
    pressed, it goes on sleeping, also when the service has reported an
    error. *)
Theorem loop_sleeps_without_stream (cfg : RealtimeASRConfig)
        (script : list iteration) (w : world) :
  stream (st w) = None ->
  stopping (st w) = false ->
  forallb idle script = true ->
  drive cfg script w = None.
Proof.
  revert w; induction script as [|it script IH]; intros w Hs Hp Hi;
    rewrite drive_eq, Hp; [reflexivity|].
  simpl in Hi. apply andb_true_iff in Hi as [Hi Hrest].
  unfold loop_body. rewrite Hs.
  assert (G : stream (st (deliver_all (during (blocking it)) (log Sleep w)))
              = None /\
              stopping (st (deliver_all (during (blocking it)) (log Sleep w)))
              = false).
  { unfold idle in Hi.
    assert (H0 : stream (st (log Sleep w)) = None /\
                 stopping (st (log Sleep w)) = false) by auto.
    revert H0. generalize (log Sleep w).
    induction (during (blocking it)) as [|e es IHe]; intros w0 [H1 H2];
      [auto|].
    simpl in Hi. apply andb_true_iff in Hi as [He Hes].
    simpl. apply IHe; [exact Hes|]. now apply deliver_passive. }
  destruct G as [G1 G2]. now apply IH.
Qed.

(** X18.  With a stream open, an error that the service has reported by
    the time a block has been read and sent ends the loop with that turn,
    by the [break] of line 173. *)
Theorem recorded_error_ends_loop (cfg : RealtimeASRConfig) (it : iteration)
        (rest : list iteration) (w : world) (s : handle) :
  stopping (st w) = false ->
  stream (st w) = Some s ->
  raised (blocking it) = None ->
  raised (sending it) = None ->
  error_set (st w)
  || existsb is_error (during (blocking it) ++ during (sending it)) = true ->
  drive cfg (it :: rest) w = Some (fst (loop_body cfg it w), Broke).
Proof.
  intros Hp Hs Hr Hsd He.
  rewrite drive_eq, Hp. unfold loop_body. rewrite Hs, Hr, Hsd.
  match goal with |- context [error_set (st ?x)] =>
    assert (G : error_set (st x) = true) end.
  { apply orb_true_iff in He as [He|He].
    - now apply deliver_all_error_set, deliver_all_error_set.
    - rewrite existsb_app in He. apply orb_true_iff in He as [He|He].
      + now apply deliver_all_error_set, deliver_all_error_recorded.
      + now apply deliver_all_error_recorded. }
  now rewrite G.
Qed.

(** X19.  [on_close] prints its line, then stops and closes the stream
    the state holds, if any, then terminates the [PyAudio] instance it
    holds, if any, and nothing else; it leaves [mic] and [stream] as [None]
    and the rest of the state and of the session as they were.  Called
    again, it only prints its line. *)
Theorem on_close_releases_once (w : world) :
  trace (on_close w)
  = trace w
    ++ [PrintLine (py "RecognitionCallback close.")]
    ++ match stream (st w) with
       | Some s => [StopStream s; CloseStream s]
       | None => []
       end
    ++ match mic (st w) with
       | Some m => [Terminate m]
       | None => []
       end
  /\ st (on_close w) = set_devices None None (st w)
  /\ sigint (on_close w) = sigint w
  /\ next_handle (on_close w) = next_handle w
  /\ on_close (on_close w)
     = log (PrintLine (py "RecognitionCallback close.")) (on_close w).
Proof.
  destruct w as [x sg n t]. destruct x as [m s ss lt rid er sp sd].
  unfold on_close. simpl.
  destruct s as [s|], m as [m|]; simpl; rewrite <- ?app_assoc; simpl;
    repeat split.
Qed.

End HeardProperties.

(* ------------------------------------------------------------------ *)
(** ** What the loop of [request] holds back *)

Section HeldBack.

Import Client Stream.

Variable clock : nat -> Z.

Lemma startswith_length (full pre : str) :
  startswith full pre = true -> length pre <= length full.
Proof.
  revert full; induction pre as [|p pre IH]; intros full H; simpl in *;
    [lia|].
  destruct full as [|c full]; [discriminate|].
  apply andb_true_iff in H as [_ H]. apply IH in H. simpl. lia.
Qed.

Lemma startswith_whole (full pre : str) :
  startswith full pre = true -> length pre = length full -> pre = full.
Proof.
  intros H L. apply startswith_split in H.
  rewrite skipn_all2 in H by lia. now rewrite app_nil_r in H.
Qed.

Lemma first_marker_in_None (markers : list str) (buffer : str) :
  first_marker_in markers buffer = None ->
  forall m, In m markers -> contains m buffer = false.
Proof.
  induction markers as [|x markers IH]; simpl; [contradiction|].
  destruct (contains x buffer) eqn:E; [discriminate|].
  intros H m [<-|Hin]; [exact E|now apply IH].
Qed.

(** For a buffer in which [marker] does not occur, the test of line 116
    on the last [len(marker)] characters is a test on the whole buffer. *)
Lemma tail_test_is_prefix_test (marker buffer : str) :
  contains marker buffer = false ->
  startswith marker (last_chars (length marker) buffer)
  = startswith marker buffer.
Proof.
  intros Hc. unfold last_chars.
  destruct (length marker) as [|n] eqn:Ln; [reflexivity|].
  destruct (Nat.le_gt_cases (length buffer) (S n)) as [Hle|Hgt].
  - replace (length buffer - S n) with 0 by lia. reflexivity.
  - destruct (startswith marker buffer) eqn:E2.
    { apply startswith_length in E2. lia. }
    destruct (startswith marker (skipn (length buffer - S n) buffer)) eqn:E1;
      [exfalso|reflexivity].
    apply startswith_whole in E1.
    2:{ rewrite length_skipn. lia. }
    assert (H : contains marker buffer = true).
    { rewrite <- (firstn_skipn (length buffer - S n) buffer), E1.
      rewrite <- (app_nil_r marker) at 2.
      apply contains_inside. rewrite <- (app_nil_r marker) at 2.
      apply contains_occurs. now exists [], []. }
    congruence.
Qed.

Lemma is_p_without_marker (buffer : str) :
  first_marker_in action_markers buffer = None ->
  is_p buffer = existsb (fun marker => startswith marker buffer) action_markers.
Proof.
  intros H. pose proof (first_marker_in_None _ _ H) as Hn.
  unfold is_p. revert Hn. generalize action_markers.
  induction l as [|m ms IH]; intros Hn; [reflexivity|].
  simpl. rewrite tail_test_is_prefix_test by (apply Hn; now left).
  rewrite IH; [reflexivity|]. intros x Hx. apply Hn. now right.
Qed.

Lemma scan_buffer_held (l : locals) (buffer : str) :
  l_in_action_phase (scan_buffer clock l buffer) = false ->
  first_marker_in action_markers (l_buffer (scan_buffer clock l buffer)) = None
  /\ is_p (l_buffer (scan_buffer clock l buffer)) = true.
Proof.
  unfold scan_buffer.
  destruct (first_marker_in action_markers buffer) eqn:F;
    [simpl; intros X; discriminate X|].
  destruct (is_p buffer) eqn:P; simpl; intros _; auto.
Qed.

(** While no marker has been seen, the buffer holds no marker and passes
    the test of line 116. *)
Lemma buffer_is_held (stream : list chunk) (l : locals) :
  (l_in_action_phase l = false ->
   first_marker_in action_markers (l_buffer l) = None /\
   is_p (l_buffer l) = true) ->
  l_in_action_phase (run_stream clock stream l) = false ->
  first_marker_in action_markers (l_buffer (run_stream clock stream l)) = None
  /\ is_p (l_buffer (run_stream clock stream l)) = true.
Proof.
  revert l; induction stream as [|ch stream IH]; intros l H; [exact H|].
  simpl. apply IH. clear IH. unfold on_chunk.
  destruct (choices ch) as [|d ds]; [exact H|].
  destruct (on_reasoning_phase clock d l) as (R1 & R2 & _).
  set (l1 := on_reasoning clock d l) in *. clearbody l1.
  rewrite <- R1, <- R2 in H. clear R1 R2.
  unfold on_content. destruct (content d) as [c|]; [|exact H].
  destruct (note_first_token_phase clock l1) as (P1 & P2 & _).
  set (l2 := note_first_token clock l1) in *. clearbody l2.
  rewrite <- P1, <- P2 in H. clear P1 P2.
  cbv zeta. cbn [l_in_action_phase l_buffer].
  destruct (l_in_action_phase l2) eqn:Ph; [simpl; congruence|].
  apply scan_buffer_held.
Qed.

(** X20.  While no marker has been seen, the text that the loop holds back
    from the echo is a prefix of a marker and shorter than it: at most 14
    characters are withheld, and they are withheld only when the whole
    buffer, not just its tail, starts a marker. *)
Theorem held_back_text_is_marker_prefix (stream : list chunk) :
  let l := run_stream clock stream init_locals in
  l_in_action_phase l = false ->
  (exists marker, In marker action_markers /\
                  startswith marker (l_buffer l) = true /\
                  length (l_buffer l) < length marker) /\
  length (l_buffer l) <= 14.
Proof.
  intros l Hph.
  destruct (buffer_is_held stream init_locals) as [Hn Hp];
    [intros _; split; reflexivity|exact Hph|].
  fold l in Hn, Hp.
  rewrite (is_p_without_marker _ Hn) in Hp.
  apply existsb_exists in Hp as (marker & Hin & Hs).
  assert (Hlt : length (l_buffer l) < length marker).
  { pose proof (startswith_length _ _ Hs) as Hle.
    destruct (Nat.eq_dec (length (l_buffer l)) (length marker)) as [E|];
      [|lia].
    apply startswith_whole in Hs; [|exact E].
    pose proof (first_marker_in_None _ _ Hn marker Hin) as Hc.
    rewrite Hs in Hc.
    assert (contains marker marker = true).
    { apply contains_occurs. exists [], []. now rewrite app_nil_r. }
    congruence. }
  split; [now exists marker|].
  destruct Hin as [<-|[<-|[]]]; simpl in Hlt; lia.
Qed.

Lemma reasoning_echo_app (a b : list output) :
  reasoning_echo (a ++ b) = reasoning_echo a ++ reasoning_echo b.
Proof. apply flat_map_app. Qed.

Lemma scan_buffer_reasoning (l : locals) (buffer : str) :
  reasoning_echo (l_stdout (scan_buffer clock l buffer))
  = reasoning_echo (l_stdout l) /\
  l_raw_reasoning (scan_buffer clock l buffer) = l_raw_reasoning l.
Proof.
  unfold scan_buffer.
  destruct (first_marker_in action_markers buffer) as [marker|].
  - simpl. split; [|reflexivity].
    rewrite !reasoning_echo_app.
    destruct (truthy (strip _)); simpl; now rewrite app_nil_r.
  - destruct (is_p buffer); simpl; split; try reflexivity.
    rewrite reasoning_echo_app. simpl. now rewrite app_nil_r.
Qed.

Lemma on_chunk_reasoning (l : locals) (ch : chunk) :
  reasoning_echo (l_stdout l) = l_raw_reasoning l ->
  reasoning_echo (l_stdout (on_chunk clock l ch))
  = l_raw_reasoning (on_chunk clock l ch).
Proof.
  intros H. unfold on_chunk.
  destruct (choices ch) as [|d ds]; [exact H|].
  assert (H1 : reasoning_echo (l_stdout (on_reasoning clock d l))
               = l_raw_reasoning (on_reasoning clock d l)).
  { unfold on_reasoning.
    destruct (r_piece d) as [r|]; [destruct (truthy r)|]; try exact H.
    destruct (note_first_token_advances clock l) as (_ & Hr & _).
    destruct (note_first_token_phase clock l) as (_ & _ & _ & Ho).
    simpl. rewrite reasoning_echo_app, Ho, Hr, H, !app_nil_r. simpl.
    now rewrite app_nil_r. }
  set (l1 := on_reasoning clock d l) in *. clearbody l1.
  unfold on_content. destruct (content d) as [c|]; [|exact H1].
  destruct (note_first_token_advances clock l1) as (_ & Hr & _).
  destruct (note_first_token_phase clock l1) as (_ & _ & _ & Ho).
  set (l2 := note_first_token clock l1) in *. clearbody l2.
  rewrite app_nil_r in Hr. rewrite <- Ho, <- Hr in H1.
  cbv zeta. cbn [l_in_action_phase l_buffer].
  destruct (l_in_action_phase l2); [exact H1|].
  match goal with |- context [scan_buffer clock ?x ?b] =>
    destruct (scan_buffer_reasoning x b) as [-> ->] end.
  exact H1.
Qed.

(** X21.  The reasoning fragments are echoed as they are: what a request
    has written from the reasoning sub-stream is the concatenation of its
    reasoning fragments, whether the request returns or raises. *)
Theorem reasoning_is_echoed_verbatim (stream : list chunk) :
  reasoning_echo (snd (request clock stream))
  = concat (reasoning_fragments stream).
Proof.
  assert (G : forall l,
             reasoning_echo (l_stdout l) = l_raw_reasoning l ->
             reasoning_echo (l_stdout (run_stream clock stream l))
             = l_raw_reasoning (run_stream clock stream l)).
  { induction stream as [|ch stream' IH]; intros l H; [exact H|].
    simpl. apply IH. now apply on_chunk_reasoning. }
  specialize (G init_locals eq_refl).
  destruct (run_stream_advances clock stream init_locals) as (_ & Hr & _).
  simpl in Hr. rewrite <- Hr, <- G.
  unfold request, finish.
  destruct (parse_response _) as [t a].
  destruct (l_time_to_first_token _); simpl;
    rewrite ?reasoning_echo_app; simpl; rewrite ?app_nil_r;
    destruct (truthy (l_buffer _) && negb (l_in_action_phase _)); simpl;
    now rewrite ?app_nil_r.
Qed.

End HeldBack.

(* ------------------------------------------------------------------ *)
(** ** The further properties at work *)

(** X1 on the weather scenario, with the stream finishing and with the
    stream failing after its fragments. *)
Lemma weather_request_returns :
  (exists r out,
      Stream.request_from Client.ticking
        {| Stream.yields := map Client.content_chunk Client.weather_fragments;
           Stream.fails := None |}
      = (Return r, out))
  /\ fst (Stream.request_from Client.ticking
            {| Stream.yields := map Client.content_chunk Client.weather_fragments;
               Stream.fails := Some ASR.stream_closed |})
     = Raise ASR.stream_closed.
Proof.
  split.
  - apply (proj2 (proj1 (request_returns_iff_token Client.ticking
                           {| Stream.yields :=
                                map Client.content_chunk Client.weather_fragments;
                              Stream.fails := None |}))).
    split; reflexivity.
  - rewrite (proj1 (proj2 (proj2 (request_returns_iff_token Client.ticking
                           {| Stream.yields :=
                                map Client.content_chunk Client.weather_fragments;
                              Stream.fails := Some ASR.stream_closed |}))
                          ASR.stream_closed eq_refl)).
    reflexivity.
Defined.

(** X2 on the weather scenario. *)
Lemma weather_raw_content :
  exists r out,
    Client.request Client.ticking
                   (map Client.content_chunk Client.weather_fragments)
    = (Return r, out) /\
    Client.raw_content r
    = concat (Client.content_fragments
                (map Client.content_chunk Client.weather_fragments)).
Proof.
  eexists. eexists. split; [reflexivity|].
  eapply (raw_content_is_all_content Client.ticking
            (map Client.content_chunk Client.weather_fragments)).
  reflexivity.
Defined.

(** X3 on content that arrives after the marker. *)
Lemma action_body_is_not_echoed :
  let l := Client.run_stream Client.ticking
             [Client.content_chunk (py "ok do(action=")] Client.init_locals in
  let l' := Client.run_stream Client.ticking
              [Client.content_chunk (py "tap(1,2))")] l in
  Client.l_in_action_phase l' = true /\
  Client.l_buffer l' = Client.l_buffer l /\
  Client.l_time_to_thinking_end l' = Client.l_time_to_thinking_end l /\
  Stream.content_echo (Client.l_stdout l')
  = Stream.content_echo (Client.l_stdout l) /\
  Client.thinking_echo (snd (Client.finish Client.ticking l'))
  = Client.thinking_echo (Client.l_stdout l).
Proof.
  apply (action_phase_is_silent Client.ticking
           (Client.run_stream Client.ticking
              [Client.content_chunk (py "ok do(action=")] Client.init_locals)
           [Client.content_chunk (py "tap(1,2))")]).
  reflexivity.
Defined.

(** X4 on the weather scenario. *)
Lemma weather_echo_is_prefix :
  exists r out rest,
    Client.request Client.ticking
                   (map Client.content_chunk Client.weather_fragments)
    = (Return r, out) /\
    Client.raw_content r = Client.thinking_echo out ++ rest /\
    (Client.time_to_thinking_end r = None -> rest = []).
Proof.
  eexists. eexists.
  assert (E : Client.request Client.ticking
                (map Client.content_chunk Client.weather_fragments)
              = (Return _, _)) by reflexivity.
  destruct (echo_is_prefix_of_content Client.ticking _ _ _ E) as [rest H].
  exists rest. split; [exact E|exact H].
Defined.

(** X5 on the weather scenario. *)
Lemma weather_marks_in_order :
  exists r out a c,
    Client.request Client.ticking
                   (map Client.content_chunk Client.weather_fragments)
    = (Return r, out) /\
    Client.time_to_first_token r = Some a /\ Client.total_time r = Some c /\
    (0 <= a <= c)%Z /\
    forall b, Client.time_to_thinking_end r = Some b -> (a <= b <= c)%Z.
Proof.
  eexists. eexists.
  assert (E : Client.request Client.ticking
                (map Client.content_chunk Client.weather_fragments)
              = (Return _, _)) by reflexivity.
  assert (M : Stream.monotone Client.ticking)
    by (intros n m H; unfold Client.ticking; lia).
  destruct (marks_are_in_order Client.ticking _ _ _ M E) as (a & c & H).
  exists a, c. split; [exact E|exact H].
Defined.

(** X6 on the weather scenario. *)
Lemma weather_action_starts_with_marker :
  exists r out,
    Client.request Client.ticking
                   (map Client.content_chunk Client.weather_fragments)
    = (Return r, out) /\
    exists marker i,
      Client.first_marker_in Client.action_markers (Client.raw_content r)
      = Some marker /\
      find marker (Client.raw_content r) = Some i /\
      Client.action r = skipn i (Client.raw_content r) /\
      startswith (Client.action r) marker = true.
Proof.
  eexists. eexists.
  assert (E : Client.request Client.ticking
                (map Client.content_chunk Client.weather_fragments)
              = (Return _, _)) by reflexivity.
  split; [exact E|].
  exact (seen_marker_starts_action Client.ticking _ _ _ 2%Z E eq_refl).
Defined.

(** X7 on the weather scenario. *)
Lemma weather_thinking_is_stripped :
  exists r out,
    Client.request Client.ticking
                   (map Client.content_chunk Client.weather_fragments)
    = (Return r, out) /\
    Heard.clean (Client.thinking r) /\
    strip (Client.thinking r) = Client.thinking r.
Proof.
  eexists. eexists.
  assert (E : Client.request Client.ticking
                (map Client.content_chunk Client.weather_fragments)
              = (Return _, _)) by reflexivity.
  split; [exact E|].
  exact (proj2 (proj2 (thinking_is_stripped Client.ticking [])) _ _ _ E).
Defined.

(** X8 on a content with both markers, the first declared one last. *)
Lemma thinking_before_finish_has_no_finish :
  contains (py "finish(message=")
           (fst (Client.parse_response (py "do(action=a)finish(message=b)")))
  = false /\
  (contains (py "finish(message=") (py "do(action=a)finish(message=b)") = false ->
   contains (py "do(action=")
            (fst (Client.parse_response (py "do(action=a)finish(message=b)")))
   = false).
Proof.
  apply (thinking_has_no_split_marker (py "do(action=a)finish(message=b)")).
  reflexivity.
Defined.

(** X10 on a user message with an image. *)
Lemma remove_images_from_user_message :
  let msg := Messages.create_user_message (py "hi") (Some (py "AAAA")) in
  let msg' := Messages.setitem (py "content")
                (Messages.VList [Messages.text_item (py "hi")]) msg in
  Messages.remove_images_from_message msg = Return msg'
  /\ Messages.get (py "content") msg'
     = Some (Messages.VList [Messages.text_item (py "hi")])
  /\ (forall k, k <> py "content" ->
                Messages.get k msg' = Messages.get k msg)
  /\ Messages.remove_images_from_message msg' = Return msg'.
Proof.
  apply (remove_images_keeps_text
           (Messages.create_user_message (py "hi") (Some (py "AAAA")))
           [Messages.image_item (py "AAAA"); Messages.text_item (py "hi")]).
  - reflexivity.
  - reflexivity.
Defined.

(** X11 on a content list with a string in it. *)
Lemma remove_images_raises_on_string_item :
  Messages.remove_images_from_message
    [(py "role", Messages.VStr (py "user"));
     (py "content",
      Messages.VList [Messages.text_item (py "a");
                      Messages.VStr (py "oops")])]
  = Raise (Messages.no_attribute (Messages.VStr (py "oops")) (py "get")).
Proof.
  apply (remove_images_raises_on_non_dict
           [(py "role", Messages.VStr (py "user"));
            (py "content",
             Messages.VList [Messages.text_item (py "a");
                             Messages.VStr (py "oops")])]
           [Messages.text_item (py "a")] [] (Messages.VStr (py "oops"))).
  - reflexivity.
  - reflexivity.
  - reflexivity.
Defined.

(** X12 on a configuration that turns thinking off. *)
Lemma extra_body_keeps_enable_thinking :
  Messages.get (py "enable_thinking")
    (Messages.request_extra_body
       (Some [(py "enable_thinking", Messages.VBool false)]))
  = Some (Messages.VBool false).
Proof.
  apply (proj1 (extra_body_defaults
                  (Some [(py "enable_thinking", Messages.VBool false)])
                  (py "enable_thinking"))).
  reflexivity.
Defined.


(** X15 on the read that fails after Ctrl+C. *)
Lemma sigint_ends_read_race :
  ASR.stopping
    (ASR.st (fst (ASR.loop_body ASR.default_config ASR.read_fails_after_sigint
                    (fst (ASR.prepare ASR.read_race))))) = true /\
  exists ex,
    ASR.drive ASR.default_config [ASR.read_fails_after_sigint]
              (fst (ASR.prepare ASR.read_race))
    = Some (fst (ASR.loop_body ASR.default_config ASR.read_fails_after_sigint
                   (fst (ASR.prepare ASR.read_race))), ex).
Proof.
  apply (sigint_ends_loop_within_turn ASR.default_config
           ASR.read_fails_after_sigint []
           (fst (ASR.prepare ASR.read_race))).
  - reflexivity.
  - reflexivity.
  - reflexivity.
Defined.

(** X16 on the session with a finalized sentence and an error. *)
Lemma stop_runs_once_after_error :
  exists w r,
    ASR.transcribe_once ASR.error_after_sentence = Some (w, r) /\
    ASR.sigint w
    = ASR.HostHandler (ASR.previous_handler ASR.error_after_sentence) /\
    ASR.stopped (ASR.st w) = true /\
    ASR.service_stops (ASR.trace w) = 1.
Proof.
  match eval vm_compute in (ASR.transcribe_once ASR.error_after_sentence) with
  | Some (?W, ?R) =>
      exists W, R;
      assert (E : ASR.transcribe_once ASR.error_after_sentence
                  = Some (W, R)) by (vm_compute; reflexivity)
  end.
  split; [exact E|].
  exact (stop_runs_exactly_once ASR.error_after_sentence _ _
           eq_refl eq_refl E).
Defined.

(** X17 on a session whose service reports an error and never opens the
    microphone. *)
Lemma loop_sleeps_after_early_error :
  ASR.drive ASR.default_config
    [{| ASR.blocking := {| ASR.during := [ASR.OnComplete]; ASR.raised := None |};
        ASR.sending := ASR.quiet |};
     {| ASR.blocking := ASR.quiet; ASR.sending := ASR.quiet |}]
    (ASR.deliver (ASR.fresh ASR.SessionHandler) (ASR.OnError ASR.quota_error))
  = None.
Proof.
  apply (loop_sleeps_without_stream ASR.default_config
           [{| ASR.blocking := {| ASR.during := [ASR.OnComplete];
                                  ASR.raised := None |};
               ASR.sending := ASR.quiet |};
            {| ASR.blocking := ASR.quiet; ASR.sending := ASR.quiet |}]
           (ASR.deliver (ASR.fresh ASR.SessionHandler)
                        (ASR.OnError ASR.quota_error))).
  - reflexivity.
  - reflexivity.
  - reflexivity.
Defined.

(** X18 on the session with a finalized sentence and an error. *)
Lemma error_ends_loop_after_sentence :
  ASR.drive ASR.default_config (ASR.script ASR.error_after_sentence)
            (fst (ASR.prepare ASR.error_after_sentence))
  = Some (fst (ASR.loop_body ASR.default_config
                 {| ASR.blocking :=
                      {| ASR.during := [ASR.OnEvent ASR.hello_final;
                                        ASR.OnError ASR.quota_error];
                         ASR.raised := None |};
                    ASR.sending := ASR.quiet |}
                 (fst (ASR.prepare ASR.error_after_sentence))),
          ASR.Broke).
Proof.
  apply (recorded_error_ends_loop ASR.default_config
           {| ASR.blocking :=
                {| ASR.during := [ASR.OnEvent ASR.hello_final;
                                  ASR.OnError ASR.quota_error];
                   ASR.raised := None |};
              ASR.sending := ASR.quiet |}
           [] (fst (ASR.prepare ASR.error_after_sentence)) 1).
  - reflexivity.
  - reflexivity.
  - reflexivity.
  - reflexivity.
  - reflexivity.
Defined.

(** X20 on a stream that stops inside a marker. *)
Lemma held_back_marker_start :
  let l := Client.run_stream Client.ticking
             [Client.content_chunk (py "do(act")] Client.init_locals in
  (exists marker, In marker Client.action_markers /\
                  startswith marker (Client.l_buffer l) = true /\
                  length (Client.l_buffer l) < length marker) /\
  length (Client.l_buffer l) <= 14.
Proof.
  apply (held_back_text_is_marker_prefix Client.ticking
           [Client.content_chunk (py "do(act")]).
  reflexivity.
Defined.
